(** * fortio/fnet: network primitives

    A shallow embedding of [fnet/network.go]: payload sizing, the Copy
    primitive, the netcat bridge, the relay proxy and the destination
    resolver with its one-entry round-robin DNS cache; then the port and
    display helpers, [SmallReadUntil], [dnsValidator] and [DebugSummary].

    Conventions.
    - Go [int]/[int64] values are [Z]; [uint32] values are [Z] reduced
      with [u32] wherever the source converts or increments.
    - A Go [error] is an [option error]: [None] is [nil].
    - A runtime panic is an explicit [Panic] outcome.
    - Calls into the operating system or the Go runtime ([net.LookupPort],
      [net.ParseIP], [LookupIP], [net.Dial], [ioutil.ReadFile], readers and
      writers) are parameters of the functions that call them.
    - Log calls are kept as entries (severity and format string) so that
      statements about what is logged, and at which level, can be made. *)

From Stdlib Require Import ZArith NArith List Ascii String Bool Lia DecimalString.
Import ListNotations.
Local Open Scope string_scope.
Local Open Scope list_scope.
Local Open Scope Z_scope.

(** ** Common vocabulary *)

Inductive Level := Debug | Verbose | Info | Warning | Error | Critical.

Record LogEntry := mkLog { lvl : Level; fmt : string }.

Definition Log := list LogEntry.

Definition is_error_level (e : LogEntry) : bool :=
  match lvl e with
  | Error | Critical => true
  | _ => false
  end.

(** No entry of the log is at error severity (or above). *)
Definition no_error_log (l : Log) : bool := forallb (fun e => negb (is_error_level e)) l.

(** The log holds an entry at exactly error severity. *)
Definition has_error_log (l : Log) : bool :=
  existsb (fun e => match lvl e with Error => true | _ => false end) l.

(** Go errors: what the code can observe of an error value is its message,
    whether [os.IsTimeout] holds of it and whether [errors.Is(_, io.EOF)]
    holds of it. *)
Record error := mkErr { err_msg : string; err_timeout : bool; err_eof : bool }.

Definition os_IsTimeout (e : error) : bool := err_timeout e.
Definition errors_Is_EOF (e : error) : bool := err_eof e.

Definition io_EOF : error := mkErr "EOF" false true.
Definition io_ErrShortWrite : error := mkErr "short write" false false.

(** Result of a Go function that may panic. *)
Inductive Outcome (A : Type) : Type :=
| Ret (a : A)
| Panic (msg : string).
Arguments Ret {A} a.
Arguments Panic {A} msg.

Definition u32 (z : Z) : Z := z mod 4294967296.

(** Signed 64-bit wrap-around ([int64], and [int] on the 64-bit targets). *)
Definition i64 (z : Z) : Z := (z + 9223372036854775808) mod 18446744073709551616 - 9223372036854775808.

(** [s[0:n]] (or [s[:n]]) on a slice whose capacity is its length. *)
Definition slice_to {A} (s : list A) (n : Z) : Outcome (list A) :=
  if (0 <=? n) && (n <=? Z.of_nat (List.length s)) then Ret (firstn (Z.to_nat n) s)
  else Panic "slice bounds out of range".

(** ** Payload utilities *)
Module Payload.

Definition KILOBYTE : Z := 1024.

Record PayloadState := mkPayload {
  MaxPayloadSize : Z;
  Payload : list Byte.byte
}.

Section WithEnvironment.

(** The pseudo random source behind [rand.Read]: byte [i] of a fill. *)
Variable rnd : nat -> Byte.byte.

(** [ioutil.ReadFile]. *)
Variable ReadFile : string -> list Byte.byte + error.

Definition ChangeMaxPayloadSize (newMaxPayloadSize : Z) : PayloadState :=
  let m := if 0 <=? newMaxPayloadSize then newMaxPayloadSize else 0 in
  mkPayload m (map rnd (seq 0 (Z.to_nat m))).

(** State after [init()]. *)
Definition init : PayloadState := ChangeMaxPayloadSize (256 * KILOBYTE).

(** [ValidatePayloadSize(size *int)]: the new value of [*size], and the
    warnings logged. *)
Definition ValidatePayloadSize (st : PayloadState) (size : Z) : Z * Log :=
  if (MaxPayloadSize st <? size) && (0 <? size) then
    (MaxPayloadSize st,
     [mkLog Warning "Requested size %d greater than max size %d, using max instead (change max using -maxpayloadsizekb)"])
  else if size <? 0 then
    (0, [mkLog Warning "Requested size %d is negative, using 0 (no additional payload) instead."])
  else (size, []).

Definition GenerateRandomPayload (st : PayloadState) (payloadSize : Z)
  : Outcome (list Byte.byte) * Log :=
  let '(sz, l) := ValidatePayloadSize st payloadSize in
  (slice_to (Payload st) sz, l).

Definition ReadFileForPayload (payloadFilePath : string) : list Byte.byte + error :=
  match ReadFile payloadFilePath with
  | inr err => inr err
  | inl data => inl data
  end.

Definition GeneratePayload (st : PayloadState)
    (payloadFilePath : string) (payloadSize : Z) (payload : string)
  : Outcome (list Byte.byte) * Log :=
  if 0 <? Z.of_nat (String.length payloadFilePath) then
    match ReadFileForPayload payloadFilePath with
    | inr _ => (Ret [], [mkLog Warning "File read operation is failed %v"])
    | inl p => (Ret p, [])
    end
  else if 0 <? payloadSize then GenerateRandomPayload st payloadSize
  else (Ret (list_byte_of_string payload), []).

End WithEnvironment.

End Payload.

(** ** The Copy primitive *)
Module CopyPrim.

(** What one [Read] call hands back: the count, the buffer as the reader
    left it, and the error. *)
Record ReadResult := mkRead { nr : Z; rbuf : list Byte.byte; er : option error }.

(** What one [Write] call hands back. *)
Record WriteResult := mkWrite { nw : Z; ew : option error }.

(** Where one pass through the loop body leaves the loop. *)
Inductive Flow (S : Type) : Type :=
| Next (s : S)
| Break (s : S) (err : option error)
| Crash (msg : string).
Arguments Next {S} s.
Arguments Break {S} s err.
Arguments Crash {S} msg.

(** The buffer [make([]byte, 32*KILOBYTE)]. *)
Definition make_buf : list Byte.byte := repeat Byte.x00 (Z.to_nat (32 * Payload.KILOBYTE)).

Section WithStreams.

(** An [io.Reader] with states [R] and an [io.Writer] with states [W]. *)
Variables R W : Type.
Variable Read : R -> list Byte.byte -> ReadResult * R.
Variable Write : W -> list Byte.byte -> WriteResult * W.

Record CopyState := mkCopy {
  written : Z;
  buf : list Byte.byte;
  src : R;
  dst : W;
  clog : Log
}.

Definition add_log (st : CopyState) (e : LogEntry) : CopyState :=
  mkCopy (written st) (buf st) (src st) (dst st) (clog st ++ [e]).

(** Lines 434-449: the write half of the loop body, for a read of [n] bytes. *)
Definition write_phase (st : CopyState) (n : Z) : Flow CopyState :=
  if 0 <? n then
    match slice_to (buf st) n with
    | Panic m => Crash m
    | Ret chunk =>
        let '(wr, w') := Write (dst st) chunk in
        let written' := if 0 <? nw wr then i64 (written st + nw wr) else written st in
        let st1 := mkCopy written' (buf st) (src st) w'
                     (clog st ++ [mkLog Debug "wrote %d (expected %d) to %+v: %v"]) in
        match ew wr with
        | Some e => Break (add_log st1 (mkLog Error "copy: %+v -> %+v write error: %v")) (Some e)
        | None =>
            if negb (n =? nw wr) then Break st1 (Some io_ErrShortWrite)
            else Next st1
        end
    end
  else Next st.

(** Lines 450-460: the read-error half of the loop body. *)
Definition read_phase (st : CopyState) (e : option error) : Flow CopyState :=
  match e with
  | None => Next st
  | Some e =>
      if os_IsTimeout e then
        Break (add_log st (mkLog Verbose "copy: %+v -> %+v timeout/read error: %v")) (Some e)
      else if negb (errors_Is_EOF e) then
        Break (add_log st (mkLog Error "copy: %+v -> %+v read error: %v")) (Some e)
      else Break st None
  end.

(** The state after the [Read] call and its debug line. *)
Definition after_read (st : CopyState) (rr : ReadResult) (r' : R) : CopyState :=
  mkCopy (written st) (rbuf rr) r' (dst st) (clog st ++ [mkLog Debug "read %d from %+v: %v"]).

(** One pass through the body of the [for] loop. *)
Definition Copy_iter (st : CopyState) : Flow CopyState :=
  let '(rr, r') := Read (src st) (buf st) in
  match write_phase (after_read st rr r') (nr rr) with
  | Next st2 => read_phase st2 (er rr)
  | other => other
  end.

(** What [Copy] returns, with the streams and the log as it leaves them. *)
Record CopyResult := mkResult {
  c_written : Z;
  c_err : option error;
  c_src : R;
  c_dst : W;
  c_log : Log
}.

Definition result_of (st : CopyState) (e : option error) : CopyResult :=
  mkResult (written st) e (src st) (dst st) (clog st).

(** The loop, for at most [fuel] passes: [None] when it is still running. *)
Fixpoint Copy_loop (fuel : nat) (st : CopyState) : option (Outcome CopyResult) :=
  match fuel with
  | O => None
  | S fuel' =>
      match Copy_iter st with
      | Next st' => Copy_loop fuel' st'
      | Break st' e => Some (Ret (result_of st' e))
      | Crash m => Some (Panic m)
      end
  end.

Definition init_state (d : W) (s : R) : CopyState := mkCopy 0 make_buf s d [].

Definition Copy (fuel : nat) (d : W) (s : R) : option (Outcome CopyResult) :=
  Copy_loop fuel (init_state d s).

(** [k] passes that all go round again. *)
Fixpoint run_iters (k : nat) (st : CopyState) : option CopyState :=
  match k with
  | O => Some st
  | S k' =>
      match Copy_iter st with
      | Next st' => run_iters k' st'
      | _ => None
      end
  end.

End WithStreams.

Arguments mkCopy {R W} _ _ _ _ _.
Arguments written {R W} _.
Arguments buf {R W} _.
Arguments src {R W} _.
Arguments dst {R W} _.
Arguments clog {R W} _.
Arguments mkResult {R W} _ _ _ _ _.
Arguments c_written {R W} _.
Arguments c_err {R W} _.
Arguments c_src {R W} _.
Arguments c_dst {R W} _.
Arguments c_log {R W} _.
Arguments add_log {R W} _ _.
Arguments write_phase {R W} Write st n.
Arguments read_phase {R W} st e.
Arguments after_read {R W} st rr r'.
Arguments Copy_iter {R W} Read Write st.
Arguments result_of {R W} st e.
Arguments Copy_loop {R W} Read Write fuel st.
Arguments init_state {R W} d s.
Arguments Copy {R W} Read Write fuel d s.
Arguments run_iters {R W} Read Write k st.

End CopyPrim.

(** ** The netcat bridge *)
Module NetCat.

Import CopyPrim.

Definition UDPPrefix : string := "udp://".

(** What a netcat session leaves behind: the error it returns, its log
    lines, and what it closed, in order: the socket ["d"] (["d.CloseWrite"]
    for its write side alone), ["in"] and ["out"]. *)
Record Session := mkSession {
  nc_err : option error;
  nc_log : Log;
  nc_closed : list string
}.

Section WithPeers.

(** The caller's input and output streams. *)
Variables RI WO : Type.
Variable ReadIn : RI -> list Byte.byte -> ReadResult * RI.
Variable WriteOut : WO -> list Byte.byte -> WriteResult * WO.
(** Whether [in] and [out] are [io.Closer]s. *)
Variables in_is_closer out_is_closer : bool.

(** The two directions of the dialled socket. *)
Variables RS WS : Type.
Variable ReadSock : RS -> list Byte.byte -> ReadResult * RS.
Variable WriteSock : WS -> list Byte.byte -> WriteResult * WS.

(** [TCPResolveDestination] and [UDPResolveDestination], by their result
    [(a, err)] in the resolver state of the call ([None] is a nil address). *)
Variable Addr : Type.
Variable TCPResolveDestination : string -> option Addr * option error.
Variable UDPResolveDestination : string -> option Addr * option error.

(** [net.DialTCP] and [net.DialUDP]: the connection and the error. *)
Variable DialTCP : Addr -> option (RS * WS) * option error.
Variable DialUDP : Addr -> option (RS * WS) * option error.

(** Both pumps joined: a panic in either one takes the process down. *)
Definition both {A B} (a : option (Outcome A)) (b : option (Outcome B))
  : option (Outcome (A * B)) :=
  match a, b with
  | Some (Panic m), _ => Some (Panic m)
  | _, Some (Panic m) => Some (Panic m)
  | Some (Ret x), Some (Ret y) => Some (Ret (x, y))
  | _, _ => None
  end.

(** [UDPNetCat]: the download pump runs in a goroutine, the upload pump on
    the calling path, and [wg.Wait()] joins the two. The read deadline set
    after the upload acts through the socket's reader, which then reports a
    timeout. The function ends with [return err], the error of [DialUDP]. *)
Definition UDPNetCat (fuel : nat) (dest : string) (i : RI) (o : WO) (stopOnEOF : bool)
  : option (Outcome Session) :=
  let log0 := [mkLog Info "UDP NetCat to %s, stop on eof %v"] in
  let '(a, err) := UDPResolveDestination dest in
  match a with
  | None => Some (Ret (mkSession err log0 []))
  | Some a =>
      let '(d, err) := DialUDP a in
      match err, d with
      | Some _, _ =>
          Some (Ret (mkSession err (log0 ++ [mkLog Error "Connection error to %q: %v"]) []))
      | None, None => Some (Panic "runtime error: invalid memory address or nil pointer dereference")
      | None, Some (rs, ws) =>
          match both (Copy ReadSock WriteOut fuel o rs) (Copy ReadIn WriteSock fuel ws i) with
          | None => None
          | Some (Panic m) => Some (Panic m)
          | Some (Ret (down, up)) =>
              Some (Ret (mkSession err
                           (log0 ++ c_log up ++ c_log down
                              ++ [mkLog Info "Read %d, Wrote %d bytes to UDP %v (re %v we %v)"])
                           []))
          end
      end
  end.

(** [NetCat]. The upload pump is a goroutine: with [stopOnEOF] the calling
    path does not wait for it, and [upload_done] says whether it had
    finished (and so had stored [wb] and [we]) when they are read. *)
Definition NetCat (fuel : nat) (upload_done : bool)
    (dest : string) (i : RI) (o : WO) (stopOnEOF : bool)
  : option (Outcome Session) :=
  if String.prefix UDPPrefix dest then UDPNetCat fuel dest i o stopOnEOF
  else
    let log0 := [mkLog Info "TCP NetCat to %s, stop on eof %v"] in
    let '(a, err) := TCPResolveDestination dest in
    match a with
    | None => Some (Ret (mkSession err log0 []))
    | Some a =>
        let '(d, err) := DialTCP a in
        match err, d with
        | Some _, _ =>
            Some (Ret (mkSession err (log0 ++ [mkLog Error "Connection error to %q: %v"]) []))
        | None, None => Some (Panic "runtime error: invalid memory address or nil pointer dereference")
        | None, Some (rs, ws) =>
            match Copy ReadSock WriteOut fuel o rs with
            | None => None
            | Some (Panic m) => Some (Panic m)
            | Some (Ret down) =>
                let re := c_err down in
                let log1 := log0 ++ c_log down ++ [mkLog Info "Read %d from %s (err=%v)"] in
                let closed := ["d"] ++ (if in_is_closer then ["in"] else [])
                                    ++ (if out_is_closer then ["out"] else []) in
                let finish (we : option error) (uplog : Log) (half : list string) :=
                  let log2 := log1 ++ uplog ++ [mkLog Info "Wrote %d to %s (err=%v)"] in
                  Some (Ret (mkSession
                               (match re with
                                | Some e => Some e
                                | None => match we with Some e => Some e | None => None end
                                end)
                               log2 (half ++ closed))) in
                if negb stopOnEOF || upload_done then
                  match Copy ReadIn WriteSock fuel ws i with
                  | None => None
                  | Some (Panic m) => Some (Panic m)
                  | Some (Ret up) => finish (c_err up) (c_log up) ["d.CloseWrite"]
                  end
                else finish None [] []
            end
        end
    end.

End WithPeers.

End NetCat.

(** ** The relay proxy *)
Module Proxy.

(** A [net.Conn]: an identity, and whether its dynamic type is
    [*net.TCPConn] (the type assertions in [transfer]). *)
Record Conn := mkConn { conn_id : nat; conn_tcp : bool }.

(** A non-nil [net.Addr], by what [Network()] and [String()] return. *)
Record Addr := mkAddr { addr_network : string; addr_string : string }.

Definition ErrNilDestination : error := mkErr "nil destination" false false.

(** What a goroutine of the proxy does, in program order. *)
Inductive Event :=
| EvAccept
| EvDial (network address : string)
| EvCopy (dst src : Conn) (n : Z) (oErr : option error)
| EvCloseRead (c : Conn)
| EvCloseWrite (c : Conn)
| EvClose (c : Conn)
| EvWgAdd (n : Z)
| EvWgDone
| EvWgWait
| EvGo
| EvLog (e : LogEntry).

(** One run of [handleProxyRequest]: the events of the handler's own
    goroutine, and those of each goroutine it started. *)
Record HandlerRun := mkRun { main : list Event; spawned : list (list Event) }.

Definition is_copy (e : Event) : bool :=
  match e with EvCopy _ _ _ _ => true | _ => false end.


Definition is_accept (e : Event) : bool :=
  match e with EvAccept => true | _ => false end.

(** The log lines among some events. *)
Definition logs_of (evs : list Event) : Log :=
  flat_map (fun e => match e with EvLog l => [l] | _ => [] end) evs.

(** The events of all the goroutines of a run. *)
Definition all_events (r : HandlerRun) : list Event := main r ++ List.concat (spawned r).

Section WithNetwork.

(** [net.Dial(network, address)]. *)
Variable Dial : string -> string -> Conn + error.

(** The standard library's [io.Copy(dst, src)], by its result. *)
Variable io_Copy : Conn -> Conn -> Z * option error.

(** [CloseRead] and [CloseWrite] of a TCP connection. *)
Variable CloseRead : Conn -> option error.
Variable CloseWrite : Conn -> option error.

(** The [n]-th call of [listener.Accept()]. *)
Variable Accept : nat -> Conn + error.

Definition transfer (dst src : Conn) : list Event :=
  let '(n, oErr) := io_Copy dst src in
  [EvCopy dst src n oErr;
   EvLog (mkLog Verbose "Proxy: transferred %d bytes from %v to %v (err=%v)")]
  ++ (if conn_tcp src then
        EvCloseRead src ::
        match CloseRead src with
        | Some _ => [EvLog (mkLog Verbose "Proxy: semi expected error CloseRead on src %v: %v,%v")]
        | None => []
        end
      else [])
  ++ (if conn_tcp dst then
        EvCloseWrite dst ::
        match CloseWrite dst with
        | Some _ => [EvLog (mkLog Error "Proxy: error CloseWrite on dst %v: %v,%v")]
        | None => []
        end
      else [])
  ++ [EvWgDone].

(** Lines 508-512: [err] starts as [ErrNilDestination] and the dial is made
    only for a non-nil [dest] ([None] is a nil [net.Addr]). *)
Definition dial_dest (dest : option Addr) : list Event * (Conn + error) :=
  match dest with
  | Some a => ([EvDial (addr_network a) (addr_string a)],
               Dial (addr_network a) (addr_string a))
  | None => ([], inr ErrNilDestination)
  end.

Definition handleProxyRequest (conn : Conn) (dest : option Addr) : HandlerRun :=
  let '(dialled, d) := dial_dest dest in
  match d with
  | inr err =>
      mkRun (dialled ++ [EvLog (mkLog Error "Proxy: unable to connect to %v for %v : %v");
                         EvClose conn])
            []
  | inl d =>
      mkRun (dialled ++ [EvWgAdd 2; EvGo] ++ transfer conn d
               ++ [EvWgWait;
                   EvLog (mkLog Verbose "Proxy: both sides of transfer to %v for %v done");
                   EvClose d; EvClose conn])
            [transfer d conn]
  end.

(** The accept loop of [Proxy], from the [k]-th [Accept] call on, for
    [fuel] passes: its own events, and the handler goroutines it started. *)
Fixpoint accept_loop (fuel k : nat) (dest : option Addr) : list Event * list HandlerRun :=
  match fuel with
  | O => ([], [])
  | S fuel' =>
      let '(evs, hs) := accept_loop fuel' (S k) dest in
      match Accept k with
      | inr _ => (EvAccept :: EvLog (mkLog Critical "Proxy: error accepting: %v") :: evs, hs)
      | inl conn =>
          (EvAccept
             :: EvLog (mkLog Verbose "Proxy: Accepted proxy connection from %v -> %v (for listener %v)")
             :: EvGo :: evs,
           handleProxyRequest conn dest :: hs)
      end
  end.

(** [Proxy]: nothing is started when [Listen] gave no listener; otherwise the
    accept loop runs in its own goroutine and the bound address is returned. *)
Definition Proxy (Listen : string -> option Addr) (fuel : nat) (port : string)
    (dest : option Addr) : option Addr * (list Event * list HandlerRun) :=
  match Listen port with
  | None => (None, ([], []))
  | Some lAddr => (Some lAddr, accept_loop fuel 0 dest)
  end.

(** Dialling [dest] fails: it is nil, or [net.Dial] returns an error. *)
Definition dial_fails (dest : option Addr) : Prop :=
  match dest with
  | None => True
  | Some a => exists e, Dial (addr_network a) (addr_string a) = inr e
  end.

End WithNetwork.

End Proxy.

(** ** The destination resolver and its DNS cache *)
Module Resolver.

(** [net.IP]. *)
Definition net_IP := list Byte.byte.

Record HostPortAddr := mkHostPort { IP : net_IP; Port : Z }.

(** The package variables [dnsHost], [dnsAddrs] and [dnsRoundRobin]. *)
Record Cache := mkCache {
  dnsHost : string;
  dnsAddrs : list net_IP;
  dnsRoundRobin : Z
}.

(** What a resolution does besides computing, in program order. *)
Inductive Event :=
| EvLookupPort (proto port : string)
| EvLookupIP (filter host : string)
| EvLock
| EvUnlock
| EvLog (e : LogEntry).

(** The state a call runs in: the cache, whether this goroutine holds
    [dnsMutex], the two flags, and the events so far, the latest first. *)
Record World := mkWorld {
  cache : Cache;
  locked : bool;
  FlagResolveIPType : string;
  FlagResolveMethod : string;
  trace : list Event
}.

(** The package as loaded: empty host, nil address list, counter 0. *)
Definition initial_cache : Cache := mkCache "" [] 0.

Definition initial_world : World := mkWorld initial_cache false "ip4" "cached-rr" [].

(** A call returns, or panics, in a state. *)
Inductive Res (A : Type) : Type :=
| Ok (a : A) (w : World)
| Crashed (msg : string) (w : World).
Arguments Ok {A} a w.
Arguments Crashed {A} msg w.

Definition M (A : Type) : Type := World -> Res A.

Definition ret {A} (a : A) : M A := fun w => Ok a w.

Definition bind {A B} (m : M A) (k : A -> M B) : M B :=
  fun w => match m w with
           | Ok a w' => k a w'
           | Crashed msg w' => Crashed msg w'
           end.

Definition panic {A} (msg : string) : M A := fun w => Crashed msg w.

Declare Scope go_scope.
Delimit Scope go_scope with go.
Notation "x <- m ;; k" := (bind m (fun x => k))
  (at level 61, m at next level, right associativity) : go_scope.
Notation "' pat <- m ;; k" := (bind m (fun x => match x with pat => k end))
  (at level 61, pat pattern, m at next level, right associativity) : go_scope.
Notation "m ;; k" := (bind m (fun _ => k))
  (at level 61, right associativity) : go_scope.
Local Open Scope go_scope.

Definition emit (e : Event) : M unit :=
  fun w => Ok tt (mkWorld (cache w) (locked w) (FlagResolveIPType w) (FlagResolveMethod w)
                          (e :: trace w)).

Definition logf (l : Level) (f : string) : M unit := emit (EvLog (mkLog l f)).

Definition get_cache : M Cache := fun w => Ok (cache w) w.

Definition put_cache (c : Cache) : M unit :=
  fun w => Ok tt (mkWorld c (locked w) (FlagResolveIPType w) (FlagResolveMethod w) (trace w)).

Definition get_filter : M string := fun w => Ok (FlagResolveIPType w) w.
Definition get_method : M string := fun w => Ok (FlagResolveMethod w) w.

(** [dnsMutex.Lock()]: taking it again while holding it never returns. *)
Definition Lock : M unit :=
  fun w => if locked w then Crashed "fatal error: all goroutines are asleep - deadlock!" w
           else Ok tt (mkWorld (cache w) true (FlagResolveIPType w) (FlagResolveMethod w)
                               (EvLock :: trace w)).

(** [dnsMutex.Unlock()]. *)
Definition Unlock : M unit :=
  fun w => if locked w then
             Ok tt (mkWorld (cache w) false (FlagResolveIPType w) (FlagResolveMethod w)
                            (EvUnlock :: trace w))
           else Crashed "fatal error: sync: unlock of unlocked mutex" w.

(** [strings.HasSuffix]. *)
Definition HasSuffix (s suffix : string) : bool :=
  (String.length suffix <=? String.length s)%nat
  && String.eqb (substring (String.length s - String.length suffix) (String.length suffix) s)
                suffix.

(** [strings.HasPrefix]. *)
Definition HasPrefix (s pre : string) : bool := String.prefix pre s.

(** The host with the brackets of an IPv6 literal taken off (lines 354-357). *)
Definition strip_brackets (host : string) : string :=
  if HasPrefix host "[" && HasSuffix host "]"
  then substring 1 (String.length host - 1 - 1) host
  else host.

Definition ClearResolveCache : M unit :=
  Lock ;;
  c <- get_cache ;;
  put_cache (mkCache "" [] (dnsRoundRobin c)) ;;
  Unlock.

(** [checkCache]: on a miss the lock stays taken. *)
Definition checkCache (host : string) : M (bool * Z * option net_IP) :=
  Lock ;;
  c <- get_cache ;;
  if negb (String.eqb host (dnsHost c)) then ret (false, 0, None)
  else
    let n := u32 (Z.of_nat (List.length (dnsAddrs c))) in
    if n =? 0 then panic "runtime error: integer divide by zero"
    else
      let idx := dnsRoundRobin c mod n in
      put_cache (mkCache (dnsHost c) (dnsAddrs c) (u32 (dnsRoundRobin c + 1))) ;;
      match nth_error (dnsAddrs c) (Z.to_nat idx) with
      | None => panic "runtime error: index out of range"
      | Some res =>
          Unlock ;;
          logf Verbose "Resolved %s:%s to cached #%d addr %+v" ;;
          ret (true, idx, Some res)
      end.

Section WithSystem.

(** [net.LookupPort(proto, port)]. *)
Variable LookupPort : string -> string -> Z + error.

(** [net.ParseIP]: [None] is nil. *)
Variable ParseIP : string -> option net_IP.

(** [net.DefaultResolver.LookupIP(ctx, filter, host)]. *)
Variable LookupIP : string -> string -> list net_IP + error.

(** [rand.Intn]. *)
Variable rand_Intn : Z -> Z.

(** What the other goroutines did to the cache while this call did not
    hold the lock, during its system lookup. *)
Variable interleaved : Cache -> Cache.

(** The system lookup, with the cache as the other goroutines leave it. *)
Definition system_lookup (filter host : string) : M (list net_IP + error) :=
  emit (EvLookupIP filter host) ;;
  c <- get_cache ;;
  put_cache (interleaved c) ;;
  ret (LookupIP filter host).

(** [addrs[idx]] and the return of lines 413-415. *)
Definition pick (addrs : list net_IP) (idx : Z) (port : Z) : M (HostPortAddr + error) :=
  match nth_error addrs (Z.to_nat idx) with
  | None => panic "runtime error: index out of range"
  | Some ip =>
      logf Verbose "Resolved %s:%s to %s %s %s #%d addr %+v" ;;
      ret (inl (mkHostPort ip port))
  end.

(** Lines 386-412, for a miss: the choice of the index. *)
Definition choose (dnsMethod host : string) (addrs : list net_IP) (idx0 : Z) (port : Z)
  : M (HostPortAddr + error) :=
  let l := u32 (Z.of_nat (List.length addrs)) in
  if 1 <? l then
    if String.eqb dnsMethod "cached-rr" then
      '(inCache, idx, res) <- checkCache host ;;
      match inCache, res with
      | true, Some ip => ret (inl (mkHostPort ip port))
      | _, _ =>
          put_cache (mkCache host addrs 1) ;;
          Unlock ;;
          logf Debug "First time/new host for caching address for %s : %v" ;;
          pick addrs 0 port
      end
    else if String.eqb dnsMethod "rr" then
      c <- get_cache ;;
      let n := u32 (Z.of_nat (List.length addrs)) in
      if n =? 0 then panic "runtime error: integer divide by zero"
      else
        let idx := dnsRoundRobin c mod n in
        put_cache (mkCache (dnsHost c) (dnsAddrs c) (u32 (dnsRoundRobin c + 1))) ;;
        logf Debug "Using rr address #%d for %s : %v" ;;
        pick addrs idx port
    else if String.eqb dnsMethod "first" then
      logf Debug "Using first address for %s : %v" ;;
      pick addrs idx0 port
    else if String.eqb dnsMethod "rnd" then
      let idx := u32 (rand_Intn l) in
      logf Debug "Using rnd address #%d for %s : %v" ;;
      pick addrs idx port
    else pick addrs idx0 port
  else pick addrs idx0 port.

(** Lines 381-385 and on: the system lookup and what follows it. *)
Definition lookup_and_choose (filter dnsMethod host : string) (idx0 : Z) (port : Z)
  : M (HostPortAddr + error) :=
  r <- system_lookup filter host ;;
  match r with
  | inr err => logf Error "Unable to lookup '%s' : %v" ;; ret (inr err)
  | inl addrs => choose dnsMethod host addrs idx0 port
  end.

(** Lines 358-415: [ResolveByProto] once the brackets are off the host. *)
Definition resolve_host (host port proto : string) : M (HostPortAddr + error) :=
  emit (EvLookupPort proto port) ;;
  match LookupPort proto port with
  | inr err => logf Error "Unable to resolve %s port '%s' : %v" ;; ret (inr err)
  | inl p =>
      match ParseIP host with
      | Some isAddr =>
          logf Verbose "Resolved %s:%s already an IP as addr %+v" ;;
          ret (inl (mkHostPort isAddr p))
      | None =>
          filter <- get_filter ;;
          dnsMethod <- get_method ;;
          if String.eqb dnsMethod "cached-rr" then
            '(inCache, idx, res) <- checkCache host ;;
            match inCache, res with
            | true, Some ip => ret (inl (mkHostPort ip p))
            | _, _ => Unlock ;; lookup_and_choose filter dnsMethod host idx p
            end
          else lookup_and_choose filter dnsMethod host 0 p
      end
  end.

Definition ResolveByProto (host port proto : string) : M (HostPortAddr + error) :=
  logf Debug "Resolve() called with host=%s port=%s proto=%s" ;;
  host <- (if HasPrefix host "[" && HasSuffix host "]"
           then logf Debug "host %s looks like an IPv6, stripping []" ;;
                ret (substring 1 (String.length host - 1 - 1) host)
           else ret host) ;;
  resolve_host host port proto.

(** [Resolve], the TCP-only version. *)
Definition Resolve (host port : string) : M (HostPortAddr + error) :=
  ResolveByProto host port "tcp".

(** [strings.LastIndex(s, ":")], [None] for -1. *)
Fixpoint LastIndex_colon (s : string) : option nat :=
  match s with
  | EmptyString => None
  | String c s' =>
      match LastIndex_colon s' with
      | Some j => Some (S j)
      | None => if Ascii.eqb c ":"%char then Some O else None
      end
  end.

(** [strings.TrimSuffix(s, "/")]. *)
Definition TrimSuffix_slash (s : string) : string :=
  if HasSuffix s "/" then substring 0 (String.length s - 1) s else s.

Definition ResolveDestinationInternal (dest expected unexpected : string)
  : M (HostPortAddr + error) :=
  if HasPrefix dest unexpected then
    logf Error "ResolveDestination %s" ;;
    ret (inr (mkErr "expecting %s but got %s destination %q" false false))
  else
    dest <- (if HasPrefix dest expected
             then logf Debug "Removed %s prefix dest now %q" ;;
                  ret (TrimSuffix_slash
                         (substring (String.length expected)
                                    (String.length dest - String.length expected) dest))
             else ret dest) ;;
    match LastIndex_colon dest with
    | None =>
        logf Error "Destination '%s' is not host:port format" ;;
        ret (inr (mkErr "destination '%s' is not host:port format" false false))
    | Some i =>
        let host := substring 0 i dest in
        let port := substring (i + 1) (String.length dest - (i + 1)) dest in
        if (String.length expected <? 3)%nat then panic "runtime error: slice bounds out of range"
        else ResolveByProto host port (substring 0 3 expected)
    end.

Definition TCPResolveDestination (dest : string) : M (HostPortAddr + error) :=
  ResolveDestinationInternal dest "tcp://" "udp://".

Definition UDPResolveDestination (dest : string) : M (HostPortAddr + error) :=
  ResolveDestinationInternal dest "udp://" "tcp://".

End WithSystem.

(** The result and the final state of a call that returned. *)
Definition result_of {A} (r : Res A) : option A :=
  match r with Ok a _ => Some a | Crashed _ _ => None end.

Definition world_of {A} (r : Res A) : World :=
  match r with Ok _ w => w | Crashed _ w => w end.

(** The state after [n] calls, one after the other, of one resolution. *)
Definition after_calls {A} (call : M A) (n : N) (w : World) : World :=
  N.iter n (fun w => world_of (call w)) w.

(** What call number [n] (counting from 0) of that series returns. *)
Definition call_result {A} (call : M A) (n : N) (w : World) : option A :=
  result_of (call (after_calls call n w)).

(** The log lines of [ResolveByProto] before the port lookup, the latest first. *)
Definition entry_log (host : string) : list Event :=
  (if HasPrefix host "[" && HasSuffix host "]"
   then [EvLog (mkLog Debug "host %s looks like an IPv6, stripping []")]
   else [])
  ++ [EvLog (mkLog Debug "Resolve() called with host=%s port=%s proto=%s")].

Definition with_trace (w : World) (t : list Event) : World :=
  mkWorld (cache w) (locked w) (FlagResolveIPType w) (FlagResolveMethod w) t.

Definition is_lookup_ip (e : Event) : bool :=
  match e with EvLookupIP _ _ => true | _ => false end.

Definition is_lock (e : Event) : bool :=
  match e with EvLock | EvUnlock => true | _ => false end.

End Resolver.

(** ** Streams for worked examples *)
Module Fixtures.

Import CopyPrim.

(** A reader that plays a script: each read hands over the next chunk with
    its error, and reads past the script end the stream. *)
Definition ScriptReader := list (list Byte.byte * option error).

Definition script_Read (r : ScriptReader) (b : list Byte.byte) : ReadResult * ScriptReader :=
  match r with
  | [] => (mkRead 0 b (Some io_EOF), [])
  | (data, e) :: rest =>
      (mkRead (Z.of_nat (List.length data)) (data ++ skipn (List.length data) b) e, rest)
  end.

(** A writer that keeps what it accepts; a script entry [(n, e)] makes the
    next write accept [n] bytes and report [e]. *)
Definition ScriptWriter := (list Byte.byte * list (Z * option error))%type.

Definition script_Write (w : ScriptWriter) (chunk : list Byte.byte)
  : WriteResult * ScriptWriter :=
  match snd w with
  | [] => (mkWrite (Z.of_nat (List.length chunk)) None, (fst w ++ chunk, []))
  | (n, e) :: rest => (mkWrite n e, (fst w ++ firstn (Z.to_nat n) chunk, rest))
  end.

Definition hello : list Byte.byte := [Byte.x68; Byte.x65; Byte.x6c; Byte.x6c; Byte.x6f].

Definition err_timeout_io : error := mkErr "i/o timeout" true false.
Definition err_reset : error := mkErr "connection reset by peer" false false.
Definition err_pipe : error := mkErr "broken pipe" false false.
Definition err_refused : error := mkErr "read: connection refused" false false.

(** A destination that resolves and dials; the socket refuses every read
    and takes every write. *)
Definition resolve_ok (dest : string) : option unit * option error := (Some tt, None).
Definition dial_refusing (a : unit) : option (ScriptReader * ScriptWriter) * option error :=
  (Some ([([], Some err_refused)], ([], [])), None).


(** A small name service: two IP literals, three ports, one host with
    three addresses and one with a single address. *)
Definition ip_localhost : Resolver.net_IP := [Byte.x7f; Byte.x00; Byte.x00; Byte.x01].
Definition ip_a : Resolver.net_IP := [Byte.x0a; Byte.x00; Byte.x00; Byte.x01].
Definition ip_b : Resolver.net_IP := [Byte.x0a; Byte.x00; Byte.x00; Byte.x02].
Definition ip_c : Resolver.net_IP := [Byte.x0a; Byte.x00; Byte.x00; Byte.x03].

Definition err_unknown_port : error := mkErr "lookup tcp/no-such-service: unknown port" false false.
Definition err_no_such_host : error := mkErr "no such host" false false.

Definition LookupPort0 (proto port : string) : Z + error :=
  if String.eqb port "80" then inl 80
  else if String.eqb port "8080" then inl 8080
  else if String.eqb port "http" then inl 80
  else inr err_unknown_port.

Definition ParseIP0 (host : string) : option Resolver.net_IP :=
  if String.eqb host "127.0.0.1" then Some ip_localhost
  else if String.eqb host "::1" then Some (repeat Byte.x00 15 ++ [Byte.x01])
  else None.

Definition LookupIP0 (filter host : string) : list Resolver.net_IP + error :=
  if String.eqb host "rr.example" then inl [ip_a; ip_b; ip_c]
  else if String.eqb host "single.example" then inl [ip_a]
  else inr err_no_such_host.

Definition rand0 (n : Z) : Z := 0.

(** No other goroutine touches the cache. *)
Definition alone (c : Resolver.Cache) : Resolver.Cache := c.

Definition ResolveByProto0 := Resolver.ResolveByProto LookupPort0 ParseIP0 LookupIP0 rand0 alone.
Definition TCPResolveDestination0 :=
  Resolver.TCPResolveDestination LookupPort0 ParseIP0 LookupIP0 rand0 alone.

End Fixtures.

(** ** Readers and writers by what they deliver *)
Module Streams.

Import CopyPrim.

Section WithStreams.

Variables R W : Type.
Variable Read : R -> list Byte.byte -> ReadResult * R.
Variable Write : W -> list Byte.byte -> WriteResult * W.

(** A reader over a stream of bytes, [content r] being what is still to
    come: a read into a non-empty buffer takes at least one byte and at
    most the buffer's length from the front of the stream, without error;
    at the end of the stream it takes nothing and reports an error that is
    [io.EOF] and no timeout. *)
Definition stream_reader (content : R -> list Byte.byte) : Prop :=
  forall r b, b <> [] ->
    match content r with
    | [] =>
        exists e r',
          Read r b = (mkRead 0 b (Some e), r') /\
          errors_Is_EOF e = true /\ os_IsTimeout e = false /\ content r' = []
    | _ :: _ =>
        exists n r',
          (0 < n <= List.length b)%nat /\ (n <= List.length (content r))%nat /\
          Read r b = (mkRead (Z.of_nat n) (firstn n (content r) ++ skipn n b) None, r') /\
          content r' = skipn n (content r)
    end.

(** A writer that takes every chunk whole, [sink w] being what it has
    taken so far. *)
Definition accepting_writer (sink : W -> list Byte.byte) : Prop :=
  forall w chunk,
    exists w',
      Write w chunk = (mkWrite (Z.of_nat (List.length chunk)) None, w') /\
      sink w' = sink w ++ chunk.

(** A reader that hands over nothing and reports no error, on every call. *)
Definition idle_reader : Prop :=
  forall r b, exists r', Read r b = (mkRead 0 b None, r').

End WithStreams.

Arguments stream_reader {R} Read content.
Arguments accepting_writer {W} Write sink.
Arguments idle_reader {R} Read.

End Streams.

(** ** Reading up to a stop byte *)
Module SmallRead.

Import CopyPrim.

(** [buf[i] = b]. *)
Definition set_at (buf : list Byte.byte) (i : nat) (b : Byte.byte) : list Byte.byte :=
  firstn i buf ++ b :: skipn (S i) buf.

Section WithReader.

Variable R : Type.
Variable Read : R -> list Byte.byte -> ReadResult * R.

(** What [SmallReadUntil] returns, with the reader and the log as it
    leaves them. *)
Record Until := mkUntil {
  u_data : list Byte.byte;
  u_found : bool;
  u_err : option error;
  u_src : R;
  u_log : Log
}.

(** [return buf[0:i], found, err]. *)
Definition give (buf : list Byte.byte) (i : Z) (found : bool) (e : option error)
    (r : R) (l : Log) : Outcome Until :=
  match slice_to buf i with
  | Ret d => Ret (mkUntil d found e r l)
  | Panic m => Panic m
  end.

(** The loop [for i < max], for at most [fuel] tests of its condition:
    [None] when it is still running. The reader is handed the one-byte
    slice [buf[i : i+1]]. *)
Fixpoint SmallReadUntil_loop (fuel : nat) (stopByte : Byte.byte) (max : Z)
    (buf : list Byte.byte) (i : Z) (r : R) (l : Log) : option (Outcome Until) :=
  match fuel with
  | O => None
  | S fuel' =>
      if i <? max then
        if (i <? 0) || (Z.of_nat (List.length buf) <? i + 1) then
          Some (Panic "slice bounds out of range")
        else
          let old := nth (Z.to_nat i) buf Byte.x00 in
          let '(rr, r') := Read r [old] in
          let buf' := set_at buf (Z.to_nat i) (nth 0 (rbuf rr) old) in
          match er rr with
          | Some e => Some (give buf' i false (Some e) r' l)
          | None =>
              let l' :=
                if negb (nr rr =? 1)
                then l ++ [mkLog Critical "Bug/unexpected case, read %d instead of 1 byte yet no error"]
                else l in
              if Byte.eqb (nth (Z.to_nat i) buf' Byte.x00) stopByte
              then Some (give buf' i true None r' l')
              else SmallReadUntil_loop fuel' stopByte max buf' (i64 (i + nr rr)) r' l'
          end
      else Some (give buf i false None r l)
  end.

Definition SmallReadUntil (fuel : nat) (r : R) (stopByte : Byte.byte) (max : Z)
  : option (Outcome Until) :=
  if max <? 0 then Some (Panic "makeslice: len out of range")
  else SmallReadUntil_loop fuel stopByte max (repeat Byte.x00 (Z.to_nat max)) 0 r [].

End WithReader.

Arguments mkUntil {R} _ _ _ _ _.
Arguments u_data {R} _.
Arguments u_found {R} _.
Arguments u_err {R} _.
Arguments u_src {R} _.
Arguments u_log {R} _.
Arguments give {R} buf i found e r l.
Arguments SmallReadUntil_loop {R} Read fuel stopByte max buf i r l.
Arguments SmallReadUntil {R} Read fuel r stopByte max.

End SmallRead.

(** ** Ports and display strings *)
Module Ports.

Import Resolver.

(** [strconv.Itoa]. *)
Definition Itoa (i : Z) : string := NilZero.string_of_int (Z.to_int i).

(** [strings.Contains(s, ":")], which is also [strings.ContainsAny(s, ":")]. *)
Definition Contains_colon (s : string) : bool :=
  match LastIndex_colon s with
  | Some _ => true
  | None => false
  end.

Definition NormalizePort (port : string) : string :=
  if Contains_colon port then port else (":" ++ port)%string.

Definition UnixDomainSocket : string := "unix".

(** A [net.Addr] by its dynamic type: the three types the code asserts, and
    any other, with what [Network()] returns for it. *)
Inductive net_Addr :=
| TCPAddr (ip : net_IP) (port : Z)
| UDPAddr (ip : net_IP) (port : Z)
| UnixAddr (name net : string)
| OtherAddr (network : string).

Definition Network (a : net_Addr) : string :=
  match a with
  | TCPAddr _ _ => "tcp"
  | UDPAddr _ _ => "udp"
  | UnixAddr _ net => net
  | OtherAddr network => network
  end.

Definition GetPort (lAddr : net_Addr) : Outcome string :=
  if String.eqb (Network lAddr) UnixDomainSocket then
    match lAddr with
    | UnixAddr name _ => Ret name
    | _ => Panic "interface conversion: net.Addr is not *net.UnixAddr"
    end
  else if String.eqb (Network lAddr) "udp" then
    match lAddr with
    | UDPAddr _ port => Ret (Itoa port)
    | _ => Panic "interface conversion: net.Addr is not *net.UDPAddr"
    end
  else
    match lAddr with
    | TCPAddr _ port => Ret (Itoa port)
    | _ => Panic "interface conversion: net.Addr is not *net.TCPAddr"
    end.

Section WithStrings.

(** [addr.String()] and [net.IP.String()]. *)
Variable addr_String : net_Addr -> string.
Variable IP_String : net_IP -> string.

Definition NormalizeHostPort (inputPort : string) (addr : net_Addr) : Outcome string :=
  let urlHostPort := addr_String addr in
  if String.eqb (Network addr) UnixDomainSocket then
    Ret ("-unix-socket=" ++ urlHostPort)%string
  else if HasPrefix inputPort ":" || negb (Contains_colon inputPort) then
    match addr with
    | TCPAddr _ port => Ret ("localhost:" ++ Itoa port)%string
    | _ => Panic "interface conversion: net.Addr is not *net.TCPAddr"
    end
  else Ret urlHostPort.

(** The [String] method of [HostPortAddr]. *)
Definition HostPortAddr_String (hpa : HostPortAddr) : string :=
  let ipstr := IP_String (IP hpa) in
  let ipstr := if Contains_colon ipstr then ("[" ++ ipstr ++ "]")%string else ipstr in
  (ipstr ++ ":" ++ Itoa (Port hpa))%string.

End WithStrings.

End Ports.


(** ** The validator of the dns method flag *)
Module Validator.

(** The map literal [valid] of [dnsValidator]. *)
Definition valid : list (string * bool) :=
  [("cached-rr", true); ("rnd", true); ("rr", true); ("first", true)].

(** [m[k]] on a [map[string]bool]: the zero value when the key is absent. *)
Definition map_get (m : list (string * bool)) (k : string) : bool :=
  match find (fun p => String.eqb (fst p) k) m with
  | Some p => snd p
  | None => false
  end.

Definition dnsValidator (inp : string) : option error :=
  if map_get valid inp then None
  else Some (mkErr "invalid value for -dns-method, should be one of cached-rr, first, rnd or rr"
               false false).

End Validator.

(** ** Summaries of buffers for the logs *)
Module Summary.

Import Ports.

(** [s[lo:hi]] on a string. *)
Definition slice_str (s : string) (lo hi : Z) : Outcome string :=
  if (0 <=? lo) && (lo <=? hi) && (hi <=? Z.of_nat (String.length s))
  then Ret (substring (Z.to_nat lo) (Z.to_nat (hi - lo)) s)
  else Panic "slice bounds out of range".

(** [s[n:]] on a slice. *)
Definition slice_from {A} (s : list A) (n : Z) : Outcome (list A) :=
  if (0 <=? n) && (n <=? Z.of_nat (List.length s)) then Ret (skipn (Z.to_nat n) s)
  else Panic "slice bounds out of range".

Section WithFmt.

(** [fmt.Sprintf("%q", buf)]. *)
Variable Sprintf_q : list Byte.byte -> string.

Definition EscapeBytes (buf : list Byte.byte) : Outcome string :=
  let e := Sprintf_q buf in
  slice_str e 1 (Z.of_nat (String.length e) - 1).

Definition DebugSummary (buf : list Byte.byte) (max : Z) : Outcome string :=
  let l := Z.of_nat (List.length buf) in
  if l <=? i64 (max + 3) then EscapeBytes buf
  else
    let max := Z.quot max 2 in
    match slice_to buf max with
    | Panic m => Panic m
    | Ret head =>
        match EscapeBytes head with
        | Panic m => Panic m
        | Ret a =>
            match slice_from buf (l - max) with
            | Panic m => Panic m
            | Ret tail =>
                match EscapeBytes tail with
                | Panic m => Panic m
                | Ret b => Ret (Itoa l ++ ": " ++ a ++ "..." ++ b)%string
                end
            end
        end
    end.

End WithFmt.

End Summary.

(** ** Predicates of the properties *)
Module Invariants.

(** The one-entry cache as the package keeps it: empty, or holding a host
    with more than one address (32-bit count). *)
Definition cache_ok (c : Resolver.Cache) : Prop :=
  (Resolver.dnsHost c = "" /\ Resolver.dnsAddrs c = [])
  \/ 1 < u32 (Z.of_nat (List.length (Resolver.dnsAddrs c))).

Definition is_close (e : Proxy.Event) : bool :=
  match e with Proxy.EvClose _ => true | _ => false end.

End Invariants.

(** ** More streams and oracles for worked examples *)
Module MoreFixtures.

Import CopyPrim.

(** A reader over a byte slice, as [bytes.Reader]: the state is what is
    left to read. *)
Definition bytes_Read (s : list Byte.byte) (b : list Byte.byte) : ReadResult * list Byte.byte :=
  match s with
  | [] => (mkRead 0 b (Some io_EOF), [])
  | _ :: _ =>
      let n := Nat.min (List.length b) (List.length s) in
      (mkRead (Z.of_nat n) (firstn n s ++ skipn n b) None, skipn n s)
  end.

(** A writer that keeps everything, as [bytes.Buffer]. *)
Definition buffer_Write (w : list Byte.byte) (chunk : list Byte.byte)
  : WriteResult * list Byte.byte :=
  (mkWrite (Z.of_nat (List.length chunk)) None, w ++ chunk).

(** A reader with nothing to say yet. *)
Definition idle_Read (r : unit) (b : list Byte.byte) : ReadResult * unit :=
  (mkRead 0 b None, tt).

Definition whole (s : list Byte.byte) : list Byte.byte := s.

Fixpoint ip_eqb (a b : Resolver.net_IP) : bool :=
  match a, b with
  | [], [] => true
  | x :: a', y :: b' => Byte.eqb x y && ip_eqb a' b'
  | _, _ => false
  end.

Definition ip6_loopback : Resolver.net_IP := repeat Byte.x00 15 ++ [Byte.x01].

(** [net.IP.String] on the addresses of the small name service. *)
Definition IP_String0 (ip : Resolver.net_IP) : string :=
  if ip_eqb ip Fixtures.ip_localhost then "127.0.0.1"
  else if ip_eqb ip ip6_loopback then "::1"
  else "<nil>".

(** A quoting that escapes nothing. *)
Definition Sprintf_q0 (buf : list Byte.byte) : string :=
  String (ascii_of_nat 34) (string_of_list_byte buf ++ String (ascii_of_nat 34) "")%string.

(** The package state under another resolution method. *)
Definition world_with (method : string) (counter : Z) : Resolver.World :=
  Resolver.mkWorld (Resolver.mkCache "" [] counter) false "ip4" method [].

End MoreFixtures.

(** * Properties *)

(** ** Payload utilities *)
Module PayloadSpec.

Import Payload.

Section WithEnvironment.

Variable rnd : nat -> Byte.byte.
Variable ReadFile : string -> list Byte.byte + error.

Local Abbreviation ChangeMaxPayloadSize := (Payload.ChangeMaxPayloadSize rnd).
Local Abbreviation GeneratePayload := (Payload.GeneratePayload ReadFile).

Lemma ChangeMaxPayloadSize_nonneg n : 0 <= MaxPayloadSize (ChangeMaxPayloadSize n).
Proof. unfold Payload.ChangeMaxPayloadSize; simpl. destruct (0 <=? n) eqn:E; lia. Qed.

(** The buffer is as long as the maximum says. *)
Lemma ChangeMaxPayloadSize_length n :
  Z.of_nat (List.length (Payload (ChangeMaxPayloadSize n))) = MaxPayloadSize (ChangeMaxPayloadSize n).
Proof.
  unfold Payload.ChangeMaxPayloadSize; simpl.
  rewrite length_map, length_seq. destruct (0 <=? n) eqn:E; lia.
Qed.

(** The validated size, by cases, for a state with a non-negative maximum. *)
Lemma ValidatePayloadSize_cases st size :
  0 <= MaxPayloadSize st ->
  (size < 0 -> fst (ValidatePayloadSize st size) = 0) /\
  (MaxPayloadSize st < size -> fst (ValidatePayloadSize st size) = MaxPayloadSize st) /\
  (0 <= size <= MaxPayloadSize st -> fst (ValidatePayloadSize st size) = size).
Proof.
  intros Hm. unfold ValidatePayloadSize.
  destruct (MaxPayloadSize st <? size) eqn:E1;
    destruct (0 <? size) eqn:E2; destruct (size <? 0) eqn:E3; simpl; lia.
Qed.

Lemma ValidatePayloadSize_range st size :
  0 <= MaxPayloadSize st ->
  0 <= fst (ValidatePayloadSize st size) <= MaxPayloadSize st.
Proof.
  intros Hm. unfold ValidatePayloadSize.
  destruct (MaxPayloadSize st <? size) eqn:E1;
    destruct (0 <? size) eqn:E2; destruct (size <? 0) eqn:E3; simpl; lia.
Qed.

(** After [ChangeMaxPayloadSize] the random payload never panics and has
    the validated length. *)
Lemma GenerateRandomPayload_length n size :
  exists p, fst (GenerateRandomPayload (ChangeMaxPayloadSize n) size) = Ret p
            /\ Z.of_nat (List.length p) = fst (ValidatePayloadSize (ChangeMaxPayloadSize n) size).
Proof.
  unfold GenerateRandomPayload.
  pose proof (ChangeMaxPayloadSize_nonneg n) as Hm.
  pose proof (ChangeMaxPayloadSize_length n) as Hl.
  destruct (ValidatePayloadSize (ChangeMaxPayloadSize n) size) as [sz l] eqn:E.
  assert (Hr : 0 <= sz <= MaxPayloadSize (ChangeMaxPayloadSize n)).
  { pose proof (ValidatePayloadSize_range (ChangeMaxPayloadSize n) size Hm) as Hv.
    now rewrite E in Hv. }
  cbn [fst]. unfold slice_to.
  assert (Hb : (0 <=? sz) && (sz <=? Z.of_nat (List.length (Payload (ChangeMaxPayloadSize n)))) = true)
    by (apply andb_true_iff; split; apply Z.leb_le; lia).
  rewrite Hb. eexists; split; [reflexivity|]. rewrite length_firstn. lia.
Qed.

(** A non-empty path decides the result alone: the file's bytes, or nothing
    when the read fails; size and literal are not looked at. *)
Lemma GeneratePayload_file st path size lit :
  path <> "" ->
  fst (GeneratePayload st path size lit) =
  match ReadFile path with inl data => Ret data | inr _ => Ret [] end.
Proof.
  intros Hp. unfold Payload.GeneratePayload, ReadFileForPayload.
  destruct path as [|c path']; [congruence|]. simpl String.length.
  replace (0 <? Z.of_nat (S (String.length path'))) with true by (symmetry; apply Z.ltb_lt; lia).
  now destruct (ReadFile (String c path')).
Qed.

(** C8. With the maximum configured to 1024, [GeneratePayload "" 2000 ""]
    returns exactly 1024 bytes and [GeneratePayload "" (-5) ""] returns 0
    bytes; for every positive size a supplied file path wins over the size:
    the file's contents are returned (and nothing when the read fails);
    [ValidatePayloadSize], a total function, sends every negative size to 0,
    every size above the configured maximum to the maximum, and leaves the
    others alone. *)
Theorem C8_payload_clamping :
  (exists p, fst (GeneratePayload (ChangeMaxPayloadSize 1024) "" 2000 "") = Ret p
             /\ List.length p = 1024%nat) /\
  (exists p, fst (GeneratePayload (ChangeMaxPayloadSize 1024) "" (-5) "") = Ret p
             /\ List.length p = 0%nat) /\
  (forall newMax path size lit,
     path <> "" -> 0 < size ->
     (forall data, ReadFile path = inl data ->
        fst (GeneratePayload (ChangeMaxPayloadSize newMax) path size lit) = Ret data) /\
     (forall e, ReadFile path = inr e ->
        fst (GeneratePayload (ChangeMaxPayloadSize newMax) path size lit) = Ret [])) /\
  (forall newMax size,
     (size < 0 -> fst (ValidatePayloadSize (ChangeMaxPayloadSize newMax) size) = 0) /\
     (MaxPayloadSize (ChangeMaxPayloadSize newMax) < size ->
        fst (ValidatePayloadSize (ChangeMaxPayloadSize newMax) size)
        = MaxPayloadSize (ChangeMaxPayloadSize newMax)) /\
     (0 <= size <= MaxPayloadSize (ChangeMaxPayloadSize newMax) ->
        fst (ValidatePayloadSize (ChangeMaxPayloadSize newMax) size) = size)).
Proof.
  repeat split.
  - exists (map rnd (seq 0 1024)). split; [reflexivity|].
    now rewrite length_map, length_seq.
  - exists []. split; reflexivity.
  - intros data Hd. rewrite GeneratePayload_file by assumption. now rewrite Hd.
  - intros e He. rewrite GeneratePayload_file by assumption. now rewrite He.
  - apply ValidatePayloadSize_cases, ChangeMaxPayloadSize_nonneg.
  - apply ValidatePayloadSize_cases, ChangeMaxPayloadSize_nonneg.
  - apply ValidatePayloadSize_cases, ChangeMaxPayloadSize_nonneg.
Qed.

End WithEnvironment.

End PayloadSpec.

(** ** The Copy primitive *)
Module CopySpec.

Import CopyPrim.

Section WithStreams.

Variables R W : Type.
Variable Read : R -> list Byte.byte -> ReadResult * R.
Variable Write : W -> list Byte.byte -> WriteResult * W.

Local Abbreviation State := (CopyState R W).

(** Passes that go round again can be run ahead of the loop. *)
Lemma Copy_loop_run k : forall (st st' : State) fuel,
  run_iters Read Write k st = Some st' ->
  Copy_loop Read Write (k + fuel) st = Copy_loop Read Write fuel st'.
Proof.
  induction k as [|k IH]; intros st st' fuel H; simpl in *.
  - now inversion H.
  - destruct (Copy_iter Read Write st) eqn:E; try discriminate.
    now apply IH.
Qed.

Lemma no_error_log_app l1 l2 :
  no_error_log (l1 ++ l2) = no_error_log l1 && no_error_log l2.
Proof. unfold no_error_log. apply forallb_app. Qed.

Lemma has_error_log_app l1 l2 :
  has_error_log (l1 ++ l2) = has_error_log l1 || has_error_log l2.
Proof. unfold has_error_log. apply existsb_app. Qed.

(** A write half that lets the pass go on logs nothing at error level. *)
Lemma write_phase_next_log (st st2 : State) n :
  write_phase Write st n = Next st2 ->
  no_error_log (clog st) = true -> no_error_log (clog st2) = true.
Proof.
  unfold write_phase. intros H Hl.
  destruct (0 <? n); [|now inversion H; subst].
  destruct (slice_to (buf st) n); [|discriminate].
  destruct (Write (dst st) a) as [wr w'].
  destruct (ew wr); [discriminate|].
  destruct (negb (n =? nw wr)); [discriminate|].
  inversion H; subst; simpl. now rewrite no_error_log_app, Hl.
Qed.

(** A pass that goes round again logs nothing at error level. *)
Lemma Copy_iter_next_log (st st' : State) :
  Copy_iter Read Write st = Next st' ->
  no_error_log (clog st) = true -> no_error_log (clog st') = true.
Proof.
  unfold Copy_iter. intros H Hl.
  destruct (Read (src st) (buf st)) as [rr r'].
  destruct (write_phase Write (after_read st rr r') (nr rr)) as [st2| |] eqn:E; try discriminate.
  apply write_phase_next_log in E; [|simpl; now rewrite no_error_log_app, Hl].
  unfold read_phase in H. destruct (er rr) as [e|].
  - destruct (os_IsTimeout e); [discriminate|]. destruct (negb (errors_Is_EOF e)); discriminate.
  - now inversion H; subst.
Qed.

Lemma run_iters_log k : forall (st st' : State),
  run_iters Read Write k st = Some st' ->
  no_error_log (clog st) = true -> no_error_log (clog st') = true.
Proof.
  induction k as [|k IH]; intros st st' H Hl; simpl in *.
  - now inversion H; subst.
  - destruct (Copy_iter Read Write st) eqn:E; try discriminate.
    eapply IH; eauto using Copy_iter_next_log.
Qed.

(** The pass in which the read reports [e] and the write half does not
    leave the loop ends the loop as [read_phase] says. *)
Lemma Copy_iter_read_error (st st2 : State) rr r' :
  Read (src st) (buf st) = (rr, r') ->
  write_phase Write (after_read st rr r') (nr rr) = Next st2 ->
  Copy_iter Read Write st = read_phase st2 (er rr).
Proof. intros HR HW. unfold Copy_iter. now rewrite HR, HW. Qed.

(** The write half of a pass lets the pass go on to the read error exactly
    when no byte was read, or the bytes read were written in full and the
    writer reported no error. *)
Lemma write_phase_goes_on (st st2 : State) n :
  write_phase Write st n = Next st2 <->
  (n <= 0 /\ st2 = st) \/
  (0 < n /\
   exists chunk w',
     slice_to (buf st) n = Ret chunk /\
     Write (dst st) chunk = (mkWrite n None, w') /\
     st2 = mkCopy (i64 (written st + n)) (buf st) (src st) w'
             (clog st ++ [mkLog Debug "wrote %d (expected %d) to %+v: %v"])).
Proof.
  unfold write_phase. destruct (0 <? n) eqn:En.
  - apply Z.ltb_lt in En. split.
    + intros H. right. split; [exact En|].
      destruct (slice_to (buf st) n) as [chunk|m]; [|discriminate].
      destruct (Write (dst st) chunk) as [[nw0 ew0] w'] eqn:Ew. cbn [nw ew] in H.
      destruct ew0; [discriminate|].
      destruct (n =? nw0) eqn:Eq; cbn [negb] in H; [|discriminate].
      apply Z.eqb_eq in Eq. subst nw0.
      replace (0 <? n) with true in H by (symmetry; apply Z.ltb_lt; exact En).
      exists chunk, w'. split; [reflexivity|]. split; [exact Ew|].
      now inversion H.
    + intros [[Hn _]|[_ (chunk & w' & Hs & Hw & ->)]]; [lia|].
      rewrite Hs, Hw. cbn [nw ew]. rewrite Z.eqb_refl. cbn [negb].
      replace (0 <? n) with true by (symmetry; apply Z.ltb_lt; exact En).
      reflexivity.
  - apply Z.ltb_ge in En. split.
    + intros H. left. split; [exact En|]. now inversion H.
    + intros [[_ ->]|[Hn _]]; [reflexivity|lia].
Qed.

(** C5, as the code has it. Whatever the reader and the writer, in the pass
    where the read reports an error, and whose write half goes through (no
    byte came with the error, or the bytes that came with it were written
    in full without a write error), the loop ends and [Copy] returns the
    bytes written so far: with the error and no error-level log line for a
    timeout; with no error and no error-level log line for a clean end of
    stream; with the error and an error-level log line for any other
    error. *)
Theorem C5_copy_read_endings (d : W) (s : R) (k : nat) (st st2 : State)
    (rr : ReadResult) (r' : R) (e : error) (fuel : nat) :
  run_iters Read Write k (init_state d s) = Some st ->
  Read (src st) (buf st) = (rr, r') ->
  er rr = Some e ->
  write_phase Write (after_read st rr r') (nr rr) = Next st2 ->
  (k < fuel)%nat ->
  exists res,
    Copy Read Write fuel d s = Some (Ret res) /\
    c_written res = written st2 /\
    (os_IsTimeout e = true ->
       c_err res = Some e /\ no_error_log (c_log res) = true) /\
    (os_IsTimeout e = false -> errors_Is_EOF e = true ->
       c_err res = None /\ no_error_log (c_log res) = true) /\
    (os_IsTimeout e = false -> errors_Is_EOF e = false ->
       c_err res = Some e /\ has_error_log (c_log res) = true).
Proof.
  intros Hrun HR He HW Hk.
  assert (Hlog : no_error_log (clog st2) = true).
  { eapply write_phase_next_log; [exact HW|]. simpl.
    rewrite no_error_log_app, (run_iters_log _ _ _ Hrun); reflexivity. }
  unfold Copy. replace fuel with (k + S (fuel - S k))%nat by lia.
  rewrite (Copy_loop_run _ _ _ _ Hrun). cbn [Copy_loop].
  rewrite (Copy_iter_read_error _ _ _ _ HR HW), He. unfold read_phase.
  destruct (os_IsTimeout e) eqn:Et.
  - eexists; split; [reflexivity|]. simpl. repeat split; try discriminate.
    now rewrite no_error_log_app, Hlog.
  - destruct (errors_Is_EOF e) eqn:Ee; simpl.
    + eexists; split; [reflexivity|]. simpl. repeat split; try discriminate; auto.
    + eexists; split; [reflexivity|]. simpl. repeat split; try discriminate.
      rewrite has_error_log_app. simpl. apply orb_true_r.
Qed.

(** The write half, when the writer takes another count than was read. *)
Lemma write_phase_short (st : State) n chunk wr w' :
  0 < n ->
  slice_to (buf st) n = Ret chunk ->
  Write (dst st) chunk = (wr, w') ->
  nw wr <> n ->
  exists st1,
    written st1 = (if 0 <? nw wr then i64 (written st + nw wr) else written st) /\
    write_phase Write st n =
      Break st1 (match ew wr with Some e => Some e | None => Some io_ErrShortWrite end).
Proof.
  intros Hn Hs Hw Hne. unfold write_phase.
  replace (0 <? n) with true by (symmetry; now apply Z.ltb_lt).
  rewrite Hs, Hw. destruct (ew wr) as [e|].
  - eexists; split; [|reflexivity]. reflexivity.
  - replace (n =? nw wr) with false by (symmetry; apply Z.eqb_neq; congruence).
    eexists; split; [|reflexivity]. reflexivity.
Qed.

(** C6, as the code has it. In the pass where the writer takes fewer bytes
    than were read (or any other count than was read), the loop ends: with
    the short-write error when the writer reported no error of its own, and
    with the writer's own error when it reported one. *)
Theorem C6_copy_short_write (d : W) (s : R) (k : nat) (st : State)
    (rr : ReadResult) (r' : R) (chunk : list Byte.byte) (wr : WriteResult) (w' : W)
    (fuel : nat) :
  run_iters Read Write k (init_state d s) = Some st ->
  Read (src st) (buf st) = (rr, r') ->
  0 < nr rr ->
  slice_to (rbuf rr) (nr rr) = Ret chunk ->
  Write (dst st) chunk = (wr, w') ->
  nw wr <> nr rr ->
  (k < fuel)%nat ->
  exists res,
    Copy Read Write fuel d s = Some (Ret res) /\
    c_written res = (if 0 <? nw wr then i64 (written st + nw wr) else written st) /\
    (ew wr = None -> c_err res = Some io_ErrShortWrite) /\
    (forall e, ew wr = Some e -> c_err res = Some e).
Proof.
  intros Hrun HR Hn Hs Hw Hne Hk.
  destruct (write_phase_short (after_read st rr r') (nr rr) chunk wr w' Hn Hs Hw Hne)
    as [st1 [Hwr HW]].
  unfold Copy. replace fuel with (k + S (fuel - S k))%nat by lia.
  rewrite (Copy_loop_run _ _ _ _ Hrun). cbn [Copy_loop].
  unfold Copy_iter. rewrite HR, HW.
  eexists; split; [reflexivity|]. simpl. split; [exact Hwr|].
  split.
  - intros ->. reflexivity.
  - intros e ->. reflexivity.
Qed.

End WithStreams.

Import Fixtures.

(** Five bytes, then a clean end of stream: five bytes written, no error. *)
Lemma C5_copy_read_endings_witness :
  exists res,
    Copy script_Read script_Write 2 ([], []) [(hello, None)] = Some (Ret res) /\
    c_written res = 5 /\ c_err res = None /\ no_error_log (c_log res) = true.
Proof.
  edestruct (C5_copy_read_endings ScriptReader ScriptWriter script_Read script_Write
               ([], []) [(hello, None)] 1) as (res & Hc & Hw & _ & Heof & _).
  - reflexivity.
  - reflexivity.
  - reflexivity.
  - reflexivity.
  - exact (le_n 2).
  - exists res. split; [exact Hc|]. split; [rewrite Hw; reflexivity|].
    apply Heof; reflexivity.
Defined.

(** A timeout after five bytes: five bytes written, the timeout returned,
    nothing logged at error level. *)
Example copy_timeout_after_data :
  exists res,
    Copy script_Read script_Write 1 ([], []) [(hello, Some err_timeout_io)] = Some (Ret res) /\
    c_written res = 5 /\ c_err res = Some err_timeout_io /\ no_error_log (c_log res) = true.
Proof. eexists. repeat split. Qed.

(** The write half comes first. Five bytes read together with a timeout,
    and a writer that fails: [Copy] returns the writer's error, which is no
    timeout, and logs it at error level. Five bytes read together with the
    end of the stream, and a writer that takes two: [Copy] returns the
    short-write error, not nil. *)
Lemma C5_write_error_comes_first :
  os_IsTimeout err_timeout_io = true /\
  os_IsTimeout err_pipe = false /\
  (exists res,
     Copy script_Read script_Write 1 ([], [(0, Some err_pipe)]) [(hello, Some err_timeout_io)]
       = Some (Ret res) /\
     c_written res = 0 /\
     c_err res = Some err_pipe /\
     has_error_log (c_log res) = true /\
     no_error_log (c_log res) = false) /\
  os_IsTimeout io_EOF = false /\
  errors_Is_EOF io_EOF = true /\
  (exists res,
     Copy script_Read script_Write 1 ([], [(2, None)]) [(hello, Some io_EOF)]
       = Some (Ret res) /\
     c_written res = 2 /\
     c_err res = Some io_ErrShortWrite).
Proof.
  split; [reflexivity|]. split; [reflexivity|]. split.
  { eexists. repeat split. }
  split; [reflexivity|]. split; [reflexivity|].
  eexists. repeat split.
Qed.

(** The writer takes two of five bytes and reports an error of its own:
    [Copy] returns that error, not the short-write error. *)
Lemma C6_writer_error_wins :
  exists res,
    Copy script_Read script_Write 1 ([], [(2, Some err_pipe)]) [(hello, None)] = Some (Ret res) /\
    c_written res = 2 /\
    c_err res = Some err_pipe /\
    c_err res <> Some io_ErrShortWrite.
Proof. eexists. repeat split. discriminate. Qed.

(** The writer takes two of five bytes and reports nothing: short write. *)
Lemma C6_copy_short_write_witness :
  exists res,
    Copy script_Read script_Write 1 ([], [(2, None)]) [(hello, None)] = Some (Ret res) /\
    c_written res = 2 /\ c_err res = Some io_ErrShortWrite.
Proof.
  edestruct (C6_copy_short_write ScriptReader ScriptWriter script_Read script_Write
               ([], [(2, None)]) [(hello, None)] 0) as (res & Hc & Hw & Hs & _).
  - reflexivity.
  - reflexivity.
  - reflexivity.
  - reflexivity.
  - reflexivity.
  - simpl. lia.
  - exact (le_n 1).
  - exists res. split; [exact Hc|]. split; [rewrite Hw; reflexivity|].
    apply Hs; reflexivity.
Defined.

End CopySpec.

(** ** The netcat bridge *)
Module NetCatSpec.

Import CopyPrim NetCat.

Section WithPeers.

Variables RI WO : Type.
Variable ReadIn : RI -> list Byte.byte -> ReadResult * RI.
Variable WriteOut : WO -> list Byte.byte -> WriteResult * WO.
Variables in_is_closer out_is_closer : bool.
Variables RS WS : Type.
Variable ReadSock : RS -> list Byte.byte -> ReadResult * RS.
Variable WriteSock : WS -> list Byte.byte -> WriteResult * WS.
Variable Addr : Type.
Variable TCPResolveDestination : string -> option Addr * option error.
Variable UDPResolveDestination : string -> option Addr * option error.
Variable DialTCP : Addr -> option (RS * WS) * option error.
Variable DialUDP : Addr -> option (RS * WS) * option error.

Local Abbreviation UDPNetCat :=
  (NetCat.UDPNetCat RI WO ReadIn WriteOut RS WS ReadSock WriteSock Addr
     UDPResolveDestination DialUDP).
Local Abbreviation NetCat :=
  (NetCat.NetCat RI WO ReadIn WriteOut in_is_closer out_is_closer RS WS ReadSock WriteSock Addr
     TCPResolveDestination UDPResolveDestination DialTCP DialUDP).

(** The TCP path, when the calling path waits for the upload pump: the
    read-side error if there is one, else the write-side error, else nil. *)
Lemma NetCat_tcp_first_error fuel done dest i o a rs ws down up :
  String.prefix UDPPrefix dest = false ->
  TCPResolveDestination dest = (Some a, None) ->
  DialTCP a = (Some (rs, ws), None) ->
  Copy ReadSock WriteOut fuel o rs = Some (Ret down) ->
  Copy ReadIn WriteSock fuel ws i = Some (Ret up) ->
  exists s,
    NetCat fuel done dest i o false = Some (Ret s) /\
    nc_err s = match c_err down with
               | Some re => Some re
               | None => c_err up
               end.
Proof.
  intros Hp Hr Hd Hdown Hup. unfold NetCat.NetCat.
  rewrite Hp, Hr, Hd, Hdown. cbn [negb orb]. rewrite Hup.
  eexists; split; [reflexivity|]. simpl.
  destruct (c_err down); [reflexivity|]. now destruct (c_err up).
Qed.

(** The UDP path, once the socket is dialled: whatever the two pumps
    report, the session returns nil. *)
Lemma UDPNetCat_returns_nil fuel dest i o stop a e0 rs ws down up :
  UDPResolveDestination dest = (Some a, e0) ->
  DialUDP a = (Some (rs, ws), None) ->
  Copy ReadSock WriteOut fuel o rs = Some (Ret down) ->
  Copy ReadIn WriteSock fuel ws i = Some (Ret up) ->
  exists s, UDPNetCat fuel dest i o stop = Some (Ret s) /\ nc_err s = None.
Proof.
  intros Hr Hd Hdown Hup. unfold NetCat.UDPNetCat.
  rewrite Hr, Hd, Hdown, Hup. cbn [both].
  eexists; split; reflexivity.
Qed.

End WithPeers.

Import Fixtures.

(** C3, on the code. The same streams and the same socket, which refuses
    the read: through the TCP path the session returns the read-side error,
    through the UDP path ([udp://] destination) both pumps end, the
    download pump with that error, and the session returns nil. *)
Theorem C3_udp_netcat_drops_errors :
  (exists down,
     Copy script_Read script_Write 2 ([], []) [([], Some err_refused)] = Some (Ret down) /\
     c_err down = Some err_refused) /\
  (exists s,
     NetCat.NetCat ScriptReader ScriptWriter script_Read script_Write false false
       ScriptReader ScriptWriter script_Read script_Write unit
       resolve_ok resolve_ok dial_refusing dial_refusing
       2 true "127.0.0.1:9" [(hello, None)] ([], []) false = Some (Ret s) /\
     nc_err s = Some err_refused) /\
  (exists s,
     NetCat.NetCat ScriptReader ScriptWriter script_Read script_Write false false
       ScriptReader ScriptWriter script_Read script_Write unit
       resolve_ok resolve_ok dial_refusing dial_refusing
       2 true "udp://127.0.0.1:9" [(hello, None)] ([], []) false = Some (Ret s) /\
     nc_err s = None).
Proof.
  split; [|split].
  - eexists; split; reflexivity.
  - eexists; split; reflexivity.
  - eexists; split; reflexivity.
Qed.

(** The TCP path on a socket that refuses the read. *)
Lemma NetCat_tcp_first_error_witness :
  exists s,
    NetCat.NetCat ScriptReader ScriptWriter script_Read script_Write false false
      ScriptReader ScriptWriter script_Read script_Write unit
      resolve_ok resolve_ok dial_refusing dial_refusing
      2 true "127.0.0.1:9" [(hello, None)] ([], []) false = Some (Ret s) /\
    nc_err s = Some err_refused.
Proof.
  edestruct (NetCat_tcp_first_error ScriptReader ScriptWriter script_Read script_Write
               false false ScriptReader ScriptWriter script_Read script_Write unit
               resolve_ok resolve_ok dial_refusing dial_refusing
               2%nat true "127.0.0.1:9" [(hello, None)] ([], []) tt)
    as (s & Hs & He).
  - reflexivity.
  - reflexivity.
  - reflexivity.
  - reflexivity.
  - reflexivity.
  - exists s. split; [exact Hs|]. rewrite He. reflexivity.
Defined.

End NetCatSpec.

(** ** The relay proxy *)
Module ProxySpec.

Import Proxy.

Section WithNetwork.

Variable Dial : string -> string -> Conn + error.
Variable io_Copy : Conn -> Conn -> Z * option error.
Variable CloseRead : Conn -> option error.
Variable CloseWrite : Conn -> option error.
Variable Accept : nat -> Conn + error.

Local Abbreviation transfer := (Proxy.transfer io_Copy CloseRead CloseWrite).
Local Abbreviation handleProxyRequest :=
  (Proxy.handleProxyRequest Dial io_Copy CloseRead CloseWrite).
Local Abbreviation accept_loop :=
  (Proxy.accept_loop Dial io_Copy CloseRead CloseWrite Accept).

(** A failing dial, as [dial_dest] reports it. *)
Lemma dial_fails_dial_dest dest :
  dial_fails Dial dest ->
  exists err, snd (dial_dest Dial dest) = inr err
              /\ (dest = None -> err = ErrNilDestination).
Proof.
  destruct dest as [a|]; simpl.
  - intros [e He]. exists e. split; [exact He|discriminate].
  - intros _. exists ErrNilDestination. split; reflexivity.
Qed.

(** Every pass of the accept loop calls [Accept] once. *)
Lemma accept_loop_accepts dest fuel : forall k,
  List.length (filter is_accept (fst (accept_loop fuel k dest))) = fuel.
Proof.
  induction fuel as [|fuel IH]; intros k; simpl; [reflexivity|].
  specialize (IH (S k)).
  destruct (Proxy.accept_loop Dial io_Copy CloseRead CloseWrite Accept fuel (S k) dest)
    as [evs hs] eqn:E.
  simpl in IH. destruct (Accept k); simpl; now rewrite IH.
Qed.

(** After an accepted connection the loop goes on with the next call. *)
Lemma accept_loop_step dest fuel k conn :
  Accept k = inl conn ->
  snd (accept_loop (S fuel) k dest)
  = handleProxyRequest conn dest :: snd (accept_loop fuel (S k) dest).
Proof.
  intros Ha. simpl.
  destruct (Proxy.accept_loop Dial io_Copy CloseRead CloseWrite Accept fuel (S k) dest)
    as [evs hs].
  now rewrite Ha.
Qed.

(** C9. When dialling the destination fails (a nil destination gives
    [ErrNilDestination] without any dial) the handler logs the error,
    closes the inbound connection and returns: no copy is made, no
    goroutine is started, nothing else is closed. The accept loop does not
    depend on it: each of its passes calls [Accept], and the pass after an
    accepted connection goes on with the next call. *)
Theorem C9_proxy_dial_failure (conn : Conn) (dest : option Addr) :
  dial_fails Dial dest ->
  (dest = None -> dial_dest Dial dest = ([], inr ErrNilDestination)) /\
  handleProxyRequest conn dest =
    mkRun (fst (dial_dest Dial dest)
             ++ [EvLog (mkLog Error "Proxy: unable to connect to %v for %v : %v");
                 EvClose conn])
          [] /\
  filter is_copy (all_events (handleProxyRequest conn dest)) = [] /\
  (forall fuel k,
     List.length (filter is_accept (fst (accept_loop fuel k dest))) = fuel /\
     (Accept k = inl conn ->
        snd (accept_loop (S fuel) k dest)
        = handleProxyRequest conn dest :: snd (accept_loop fuel (S k) dest))).
Proof.
  intros Hf.
  assert (Hrun : handleProxyRequest conn dest =
    mkRun (fst (dial_dest Dial dest)
             ++ [EvLog (mkLog Error "Proxy: unable to connect to %v for %v : %v");
                 EvClose conn]) []).
  { destruct (dial_fails_dial_dest dest Hf) as [err [He _]].
    unfold Proxy.handleProxyRequest.
    destruct (dial_dest Dial dest) as [dialled d]. simpl in He. now rewrite He. }
  split; [intros ->; reflexivity|].
  split; [exact Hrun|].
  split.
  - rewrite Hrun. unfold all_events. simpl. rewrite app_nil_r, filter_app. simpl.
    destruct dest; reflexivity.
  - intros fuel k. split; [apply accept_loop_accepts | apply accept_loop_step].
Qed.





End WithNetwork.

(** A destination that refuses the connection, and a nil destination. *)
Lemma C9_proxy_dial_failure_witness :
  handleProxyRequest (fun _ _ => inr Fixtures.err_refused) (fun _ _ => (0, None))
    (fun _ => None) (fun _ => None) (mkConn 7 true) (Some (mkAddr "tcp" "10.0.0.1:80"))
  = mkRun [EvDial "tcp" "10.0.0.1:80";
           EvLog (mkLog Error "Proxy: unable to connect to %v for %v : %v");
           EvClose (mkConn 7 true)] []
  /\
  handleProxyRequest (fun _ _ => inl (mkConn 8 true)) (fun _ _ => (0, None))
    (fun _ => None) (fun _ => None) (mkConn 7 true) None
  = mkRun [EvLog (mkLog Error "Proxy: unable to connect to %v for %v : %v");
           EvClose (mkConn 7 true)] [].
Proof.
  split.
  - apply (C9_proxy_dial_failure (fun _ _ => inr Fixtures.err_refused) (fun _ _ => (0, None))
             (fun _ => None) (fun _ => None) (fun _ => inr Fixtures.err_refused)
             (mkConn 7 true) (Some (mkAddr "tcp" "10.0.0.1:80"))).
    simpl. exists Fixtures.err_refused. reflexivity.
  - apply (C9_proxy_dial_failure (fun _ _ => inl (mkConn 8 true)) (fun _ _ => (0, None))
             (fun _ => None) (fun _ => None) (fun _ => inr Fixtures.err_refused)
             (mkConn 7 true) None).
    simpl. exact I.
Defined.


(** A source that fails with a connection reset. [Copy] returns the error
    and logs it at error level; a relay direction in which [io.Copy]
    reports the same count and the same error logs one verbose line and
    nothing at error level. *)
Example relay_copy_error_is_verbose :
  (exists res,
     CopyPrim.Copy Fixtures.script_Read Fixtures.script_Write 1
       ([], []) [([], Some Fixtures.err_reset)] = Some (Ret res) /\
     CopyPrim.c_written res = 0 /\
     CopyPrim.c_err res = Some Fixtures.err_reset /\
     has_error_log (CopyPrim.c_log res) = true) /\
  logs_of (transfer (fun _ _ => (0, Some Fixtures.err_reset)) (fun _ => None) (fun _ => None)
             (mkConn 8 true) (mkConn 7 true))
    = [mkLog Verbose "Proxy: transferred %d bytes from %v to %v (err=%v)"] /\
  has_error_log
    (logs_of (transfer (fun _ _ => (0, Some Fixtures.err_reset)) (fun _ => None) (fun _ => None)
                (mkConn 8 true) (mkConn 7 true))) = false.
Proof.
  split; [|split; reflexivity].
  eexists. repeat split.
Qed.

End ProxySpec.

(** ** The destination resolver *)
Module ResolverSpec.

Import Resolver.
Local Open Scope go_scope.

(** One step of a run: compute, leaving the arithmetic and the string
    comparisons on variables as they stand. *)
Ltac run :=
  cbn -[Z.ltb Z.eqb Z.modulo Z.add u32 Z.of_nat Z.to_nat nth_error String.eqb
        HasPrefix HasSuffix substring String.length].

Lemma u32_range z : 0 <= u32 z < 4294967296.
Proof. unfold u32. apply Z.mod_pos_bound. lia. Qed.

Lemma u32_small z : 0 <= z < 4294967296 -> u32 z = z.
Proof. unfold u32. apply Z.mod_small. Qed.

(** The cache check misses: the lock is taken and kept. *)
Lemma checkCache_miss host w :
  locked w = false ->
  dnsHost (cache w) <> host ->
  checkCache host w =
    Ok (false, 0, None)
       (mkWorld (cache w) true (FlagResolveIPType w) (FlagResolveMethod w) (EvLock :: trace w)).
Proof.
  intros Hl Hh. unfold checkCache, bind, Lock, get_cache. rewrite Hl. cbn.
  replace (String.eqb host (dnsHost (cache w))) with false; [reflexivity|].
  symmetry. apply String.eqb_neq. congruence.
Qed.

(** The cache check hits a non-empty list: the address at counter mod
    length, the counter incremented, the lock released. *)
Lemma checkCache_hit host w ip :
  locked w = false ->
  dnsHost (cache w) = host ->
  u32 (Z.of_nat (List.length (dnsAddrs (cache w)))) <> 0 ->
  nth_error (dnsAddrs (cache w))
    (Z.to_nat (dnsRoundRobin (cache w) mod u32 (Z.of_nat (List.length (dnsAddrs (cache w))))))
  = Some ip ->
  checkCache host w =
    Ok (true, dnsRoundRobin (cache w) mod u32 (Z.of_nat (List.length (dnsAddrs (cache w)))),
        Some ip)
       (mkWorld (mkCache (dnsHost (cache w)) (dnsAddrs (cache w))
                         (u32 (dnsRoundRobin (cache w) + 1)))
                false (FlagResolveIPType w) (FlagResolveMethod w)
                (EvLog (mkLog Verbose "Resolved %s:%s to cached #%d addr %+v")
                   :: EvUnlock :: EvLock :: trace w)).
Proof.
  intros Hl Hh Hn Hip. unfold checkCache, bind, Lock, get_cache. rewrite Hl. cbn.
  rewrite Hh, String.eqb_refl. cbn.
  apply Z.eqb_neq in Hn. rewrite Hn. unfold put_cache. cbn. rewrite Hip. reflexivity.
Qed.

(** The cache check hits an empty list: the modulo panics, under the lock. *)
Lemma checkCache_hit_empty host w :
  locked w = false ->
  dnsHost (cache w) = host ->
  u32 (Z.of_nat (List.length (dnsAddrs (cache w)))) = 0 ->
  checkCache host w =
    Crashed "runtime error: integer divide by zero"
       (mkWorld (cache w) true (FlagResolveIPType w) (FlagResolveMethod w) (EvLock :: trace w)).
Proof.
  intros Hl Hh Hn. unfold checkCache, bind, Lock, get_cache. rewrite Hl. cbn.
  rewrite Hh, String.eqb_refl. cbn. rewrite Hn. reflexivity.
Qed.

Section WithSystem.

Variable LookupPort : string -> string -> Z + error.
Variable ParseIP : string -> option net_IP.
Variable LookupIP : string -> string -> list net_IP + error.
Variable rand_Intn : Z -> Z.
Variable interleaved : Cache -> Cache.

Local Abbreviation ResolveByProto :=
  (Resolver.ResolveByProto LookupPort ParseIP LookupIP rand_Intn interleaved).
Local Abbreviation resolve_host :=
  (Resolver.resolve_host LookupPort ParseIP LookupIP rand_Intn interleaved).

(** [ResolveByProto] is [resolve_host] on the stripped host. *)
Lemma ResolveByProto_stripped host port proto w :
  ResolveByProto host port proto w =
  resolve_host (strip_brackets host) port proto (with_trace w (entry_log host ++ trace w)).
Proof.
  unfold Resolver.ResolveByProto, strip_brackets, entry_log, with_trace.
  destruct (HasPrefix host "[" && HasSuffix host "]"); reflexivity.
Qed.

(** A literal IP, once the port is known. *)
Lemma resolve_host_literal h port proto w p ip :
  LookupPort proto port = inl p ->
  ParseIP h = Some ip ->
  resolve_host h port proto w =
    Ok (inl (mkHostPort ip p))
       (with_trace w (EvLog (mkLog Verbose "Resolved %s:%s already an IP as addr %+v")
                        :: EvLookupPort proto port :: trace w)).
Proof.
  intros Hp Hip. unfold Resolver.resolve_host. run. rewrite Hp, Hip. reflexivity.
Qed.

Lemma resolve_host_bad_port h port proto w err :
  LookupPort proto port = inr err ->
  resolve_host h port proto w =
    Ok (inr err)
       (with_trace w (EvLog (mkLog Error "Unable to resolve %s port '%s' : %v")
                        :: EvLookupPort proto port :: trace w)).
Proof.
  intros Hp. unfold Resolver.resolve_host. run. rewrite Hp. reflexivity.
Qed.

(** A miss under cached-rr with at least two addresses from the lookup,
    and no other goroutine having installed the host meanwhile. *)
Lemma resolve_host_install h port proto w p addrs ip :
  LookupPort proto port = inl p ->
  ParseIP h = None ->
  FlagResolveMethod w = "cached-rr" ->
  locked w = false ->
  dnsHost (cache w) <> h ->
  LookupIP (FlagResolveIPType w) h = inl addrs ->
  dnsHost (interleaved (cache w)) <> h ->
  1 < u32 (Z.of_nat (List.length addrs)) ->
  nth_error addrs 0 = Some ip ->
  resolve_host h port proto w =
    Ok (inl (mkHostPort ip p))
       (mkWorld (mkCache h addrs 1) false (FlagResolveIPType w) (FlagResolveMethod w)
          (EvLog (mkLog Verbose "Resolved %s:%s to %s %s %s #%d addr %+v")
             :: EvLog (mkLog Debug "First time/new host for caching address for %s : %v")
             :: EvUnlock :: EvLock
             :: EvLookupIP (FlagResolveIPType w) h
             :: EvUnlock :: EvLock
             :: EvLookupPort proto port :: trace w)).
Proof.
  destruct w as [c l ft m tr]. run.
  intros Hport Hip -> -> Hmiss Hlook Hother Hlen Hnth.
  apply Z.ltb_lt in Hlen.
  unfold Resolver.resolve_host. run. rewrite Hport, Hip. run. rewrite String.eqb_refl.
  unfold bind at 1. rewrite checkCache_miss by (cbn; auto). run.
  rewrite Hlook. run. unfold choose. rewrite Hlen, String.eqb_refl.
  unfold bind at 1. rewrite checkCache_miss by (cbn; auto). run.
  unfold pick. change (Z.to_nat 0) with 0%nat. rewrite Hnth. reflexivity.
Qed.

(** A miss under cached-rr when the lookup gives no choice (the [uint32]
    length is not above 1): nothing is installed. *)
Lemma resolve_host_no_choice h port proto w p addrs ip :
  LookupPort proto port = inl p ->
  ParseIP h = None ->
  FlagResolveMethod w = "cached-rr" ->
  locked w = false ->
  dnsHost (cache w) <> h ->
  LookupIP (FlagResolveIPType w) h = inl addrs ->
  u32 (Z.of_nat (List.length addrs)) <= 1 ->
  nth_error addrs 0 = Some ip ->
  resolve_host h port proto w =
    Ok (inl (mkHostPort ip p))
       (mkWorld (interleaved (cache w)) false (FlagResolveIPType w) (FlagResolveMethod w)
          (EvLog (mkLog Verbose "Resolved %s:%s to %s %s %s #%d addr %+v")
             :: EvLookupIP (FlagResolveIPType w) h
             :: EvUnlock :: EvLock
             :: EvLookupPort proto port :: trace w)).
Proof.
  destruct w as [c l ft m tr]. run.
  intros Hport Hip -> -> Hmiss Hlook Hlen Hnth.
  apply Z.ltb_ge in Hlen.
  unfold Resolver.resolve_host. run. rewrite Hport, Hip. run. rewrite String.eqb_refl.
  unfold bind at 1. rewrite checkCache_miss by (cbn; auto). run.
  rewrite Hlook. run. unfold choose. rewrite Hlen.
  unfold pick. change (Z.to_nat 0) with 0%nat. rewrite Hnth. reflexivity.
Qed.

(** A miss under cached-rr, and another goroutine has installed the same
    host during the lookup: its entry is used and stays. *)
Lemma resolve_host_raced h port proto w p addrs ip :
  LookupPort proto port = inl p ->
  ParseIP h = None ->
  FlagResolveMethod w = "cached-rr" ->
  locked w = false ->
  dnsHost (cache w) <> h ->
  LookupIP (FlagResolveIPType w) h = inl addrs ->
  1 < u32 (Z.of_nat (List.length addrs)) ->
  dnsHost (interleaved (cache w)) = h ->
  u32 (Z.of_nat (List.length (dnsAddrs (interleaved (cache w))))) <> 0 ->
  nth_error (dnsAddrs (interleaved (cache w)))
    (Z.to_nat (dnsRoundRobin (interleaved (cache w))
               mod u32 (Z.of_nat (List.length (dnsAddrs (interleaved (cache w)))))))
  = Some ip ->
  resolve_host h port proto w =
    Ok (inl (mkHostPort ip p))
       (mkWorld (mkCache h (dnsAddrs (interleaved (cache w)))
                         (u32 (dnsRoundRobin (interleaved (cache w)) + 1)))
          false (FlagResolveIPType w) (FlagResolveMethod w)
          (EvLog (mkLog Verbose "Resolved %s:%s to cached #%d addr %+v")
             :: EvUnlock :: EvLock
             :: EvLookupIP (FlagResolveIPType w) h
             :: EvUnlock :: EvLock
             :: EvLookupPort proto port :: trace w)).
Proof.
  destruct w as [c l ft m tr]. run.
  intros Hport Hip -> -> Hmiss Hlook Hlen Hsame Hn Hnth.
  apply Z.ltb_lt in Hlen.
  unfold Resolver.resolve_host. run. rewrite Hport, Hip. run. rewrite String.eqb_refl.
  unfold bind at 1. rewrite checkCache_miss by (cbn; auto). run.
  rewrite Hlook. run. unfold choose. rewrite Hlen, String.eqb_refl.
  unfold bind at 1. rewrite (checkCache_hit h _ ip) by (cbn; auto). run.
  rewrite Hsame. reflexivity.
Qed.

(** A hit under cached-rr: no lookup, the address at counter mod length,
    the counter incremented. *)
Lemma resolve_host_hit h port proto w p ip :
  LookupPort proto port = inl p ->
  ParseIP h = None ->
  FlagResolveMethod w = "cached-rr" ->
  locked w = false ->
  dnsHost (cache w) = h ->
  u32 (Z.of_nat (List.length (dnsAddrs (cache w)))) <> 0 ->
  nth_error (dnsAddrs (cache w))
    (Z.to_nat (dnsRoundRobin (cache w) mod u32 (Z.of_nat (List.length (dnsAddrs (cache w))))))
  = Some ip ->
  resolve_host h port proto w =
    Ok (inl (mkHostPort ip p))
       (mkWorld (mkCache h (dnsAddrs (cache w)) (u32 (dnsRoundRobin (cache w) + 1)))
          false (FlagResolveIPType w) (FlagResolveMethod w)
          (EvLog (mkLog Verbose "Resolved %s:%s to cached #%d addr %+v")
             :: EvUnlock :: EvLock
             :: EvLookupPort proto port :: trace w)).
Proof.
  destruct w as [c l ft m tr]. run.
  intros Hport Hip -> -> Hsame Hn Hnth.
  unfold Resolver.resolve_host. run. rewrite Hport, Hip. run. rewrite String.eqb_refl.
  unfold bind at 1. rewrite (checkCache_hit h _ ip) by (cbn; auto). run.
  rewrite Hsame. reflexivity.
Qed.

(** A hit under cached-rr on an empty address list: the call panics with
    the lock taken. *)
Lemma resolve_host_hit_empty h port proto w p :
  LookupPort proto port = inl p ->
  ParseIP h = None ->
  FlagResolveMethod w = "cached-rr" ->
  locked w = false ->
  dnsHost (cache w) = h ->
  u32 (Z.of_nat (List.length (dnsAddrs (cache w)))) = 0 ->
  resolve_host h port proto w =
    Crashed "runtime error: integer divide by zero"
       (mkWorld (cache w) true (FlagResolveIPType w) (FlagResolveMethod w)
          (EvLock :: EvLookupPort proto port :: trace w)).
Proof.
  destruct w as [c l ft m tr]. run.
  intros Hport Hip -> -> Hsame Hn.
  unfold Resolver.resolve_host. run. rewrite Hport, Hip. run. rewrite String.eqb_refl.
  unfold bind at 1. rewrite checkCache_hit_empty by (cbn; auto). reflexivity.
Qed.

Lemma entry_log_quiet host :
  filter is_lookup_ip (entry_log host) = [] /\ filter is_lock (entry_log host) = [].
Proof. unfold entry_log. destruct (HasPrefix host "[" && HasSuffix host "]"); split; reflexivity. Qed.

(** C2, as the code has it. For a host that is a literal IP (brackets
    taken off first) the port is looked up first: when that succeeds the
    call returns that exact IP with the port, leaves the cache and the lock
    alone and makes no system lookup of the host, whatever the configured
    method, the cache, the resolver and the other goroutines; when it fails
    the call returns the port error. *)
Theorem C2_literal_ip (host port proto : string) (w : World) (ip : net_IP) :
  ParseIP (strip_brackets host) = Some ip ->
  match LookupPort proto port with
  | inl p =>
      exists w',
        ResolveByProto host port proto w = Ok (inl (mkHostPort ip p)) w' /\
        cache w' = cache w /\ locked w' = locked w /\
        exists added, trace w' = added ++ trace w /\
                      filter is_lookup_ip added = [] /\ filter is_lock added = []
  | inr err =>
      exists w', ResolveByProto host port proto w = Ok (inr err) w' /\ cache w' = cache w
  end.
Proof.
  intros Hip. rewrite ResolveByProto_stripped.
  destruct (LookupPort proto port) as [p|err] eqn:Hp.
  - rewrite (resolve_host_literal _ _ _ _ p ip Hp Hip).
    eexists; split; [reflexivity|]. cbn. repeat split.
    exists (EvLog (mkLog Verbose "Resolved %s:%s already an IP as addr %+v")
              :: EvLookupPort proto port :: entry_log host).
    split; [reflexivity|]. cbn. apply entry_log_quiet.
  - rewrite (resolve_host_bad_port _ _ _ _ err Hp).
    eexists; split; reflexivity.
Qed.

Lemma nth_error_0_of_u32 (addrs : list net_IP) :
  0 < u32 (Z.of_nat (List.length addrs)) -> exists ip, nth_error addrs 0 = Some ip.
Proof. destruct addrs as [|ip ?]; [discriminate|]. now exists ip. Qed.

(** C1, as the code has it. A non-literal host under cached-rr that the
    cache does not hold: the system lookup is made once, and then
    - with at least two addresses, and unless another caller has installed
      the same host meanwhile, the host, the full address list and counter 1
      are installed and the address at index 0 is returned;
    - with exactly one address, that address is returned and nothing is
      installed: the cache is as the other goroutines left it;
    - when another caller has installed the same host meanwhile, its entry
      is used (address at counter mod length, counter incremented) and is
      not overwritten. *)
Theorem C1_cached_rr_install (host port proto : string) (w : World) (p : Z)
    (addrs : list net_IP) :
  LookupPort proto port = inl p ->
  ParseIP (strip_brackets host) = None ->
  FlagResolveMethod w = "cached-rr" ->
  locked w = false ->
  dnsHost (cache w) <> strip_brackets host ->
  LookupIP (FlagResolveIPType w) (strip_brackets host) = inl addrs ->
  (1 < u32 (Z.of_nat (List.length addrs)) ->
   dnsHost (interleaved (cache w)) <> strip_brackets host ->
     exists ip w',
       nth_error addrs 0 = Some ip /\
       ResolveByProto host port proto w = Ok (inl (mkHostPort ip p)) w' /\
       cache w' = mkCache (strip_brackets host) addrs 1 /\
       locked w' = false /\
       exists added, trace w' = added ++ trace w /\
                     List.length (filter is_lookup_ip added) = 1%nat) /\
  (u32 (Z.of_nat (List.length addrs)) = 1 ->
     exists ip w',
       nth_error addrs 0 = Some ip /\
       ResolveByProto host port proto w = Ok (inl (mkHostPort ip p)) w' /\
       cache w' = interleaved (cache w) /\
       locked w' = false /\
       exists added, trace w' = added ++ trace w /\
                     List.length (filter is_lookup_ip added) = 1%nat) /\
  (1 < u32 (Z.of_nat (List.length addrs)) ->
   dnsHost (interleaved (cache w)) = strip_brackets host ->
   forall ip,
     u32 (Z.of_nat (List.length (dnsAddrs (interleaved (cache w))))) <> 0 ->
     nth_error (dnsAddrs (interleaved (cache w)))
       (Z.to_nat (dnsRoundRobin (interleaved (cache w))
                  mod u32 (Z.of_nat (List.length (dnsAddrs (interleaved (cache w)))))))
     = Some ip ->
     exists w',
       ResolveByProto host port proto w = Ok (inl (mkHostPort ip p)) w' /\
       dnsHost (cache w') = strip_brackets host /\
       dnsAddrs (cache w') = dnsAddrs (interleaved (cache w)) /\
       dnsRoundRobin (cache w') = u32 (dnsRoundRobin (interleaved (cache w)) + 1)).
Proof.
  intros Hport Hip Hm Hl Hmiss Hlook.
  pose proof (entry_log_quiet host) as [Hq _].
  split; [|split].
  - intros Hlen Hother.
    destruct (nth_error_0_of_u32 addrs ltac:(lia)) as [ip Hnth]. exists ip.
    rewrite ResolveByProto_stripped.
    erewrite resolve_host_install by (cbn; eauto).
    eexists. split; [exact Hnth|]. split; [reflexivity|]. cbn. repeat split.
    eexists (_ :: _ :: _ :: _ :: _ :: _ :: _ :: _ :: entry_log host).
    split; [reflexivity|]. cbn. now rewrite Hq.
  - intros Hlen.
    destruct (nth_error_0_of_u32 addrs ltac:(lia)) as [ip Hnth]. exists ip.
    rewrite ResolveByProto_stripped.
    erewrite resolve_host_no_choice by (cbn; eauto; lia).
    eexists. split; [exact Hnth|]. split; [reflexivity|]. cbn. repeat split.
    eexists (_ :: _ :: _ :: _ :: _ :: entry_log host).
    split; [reflexivity|]. cbn. now rewrite Hq.
  - intros Hlen Hsame ip Hn Hnth.
    rewrite ResolveByProto_stripped.
    erewrite resolve_host_raced by (cbn; eauto).
    eexists. split; [reflexivity|]. cbn. repeat split.
Qed.

Lemma after_calls_succ {A} (call : M A) n w :
  after_calls call (N.succ n) w = world_of (call (after_calls call n w)).
Proof. unfold after_calls. apply N.iter_succ. Qed.

Lemma index_in_range (addrs : list net_IP) c :
  0 < Z.of_nat (List.length addrs) < 4294967296 ->
  u32 (Z.of_nat (List.length addrs)) = Z.of_nat (List.length addrs) /\
  exists ip, nth_error addrs (Z.to_nat (c mod Z.of_nat (List.length addrs))) = Some ip.
Proof.
  intros Hlen. split; [apply u32_small; lia|].
  pose proof (Z.mod_pos_bound c (Z.of_nat (List.length addrs)) ltac:(lia)) as Hb.
  destruct (nth_error addrs (Z.to_nat (c mod Z.of_nat (List.length addrs)))) eqn:E; [eauto|].
  apply nth_error_None in E. lia.
Qed.

(** One hit on an installed entry of [n] addresses, [0 < n < 2^32]. *)
Lemma ResolveByProto_hit host port proto w p addrs c :
  LookupPort proto port = inl p ->
  ParseIP (strip_brackets host) = None ->
  0 < Z.of_nat (List.length addrs) < 4294967296 ->
  FlagResolveMethod w = "cached-rr" ->
  locked w = false ->
  cache w = mkCache (strip_brackets host) addrs c ->
  exists ip w',
    nth_error addrs (Z.to_nat (c mod Z.of_nat (List.length addrs))) = Some ip /\
    ResolveByProto host port proto w = Ok (inl (mkHostPort ip p)) w' /\
    cache w' = mkCache (strip_brackets host) addrs (u32 (c + 1)) /\
    locked w' = false /\
    FlagResolveMethod w' = "cached-rr" /\
    FlagResolveIPType w' = FlagResolveIPType w /\
    exists added, trace w' = added ++ trace w /\ filter is_lookup_ip added = [].
Proof.
  intros Hport Hip Hlen Hm Hl Hc.
  destruct (index_in_range addrs c Hlen) as [Hu [ip Hnth]].
  exists ip. rewrite ResolveByProto_stripped.
  erewrite (resolve_host_hit _ _ _ _ p ip); cbn; rewrite ?Hc; cbn; rewrite ?Hu; auto; try lia.
  eexists. split; [exact Hnth|]. split; [reflexivity|]. cbn. repeat split; auto.
  eexists (_ :: _ :: _ :: _ :: entry_log host). split; [reflexivity|].
  cbn. apply entry_log_quiet.
Qed.

Section Series.

Variables (host port proto : string) (w : World) (p : Z) (addrs : list net_IP).
Hypothesis Hport : LookupPort proto port = inl p.
Hypothesis Hip : ParseIP (strip_brackets host) = None.
Hypothesis Hm : FlagResolveMethod w = "cached-rr".
Hypothesis Hl : locked w = false.
Hypothesis Hmiss : dnsHost (cache w) <> strip_brackets host.
Hypothesis Hlook : LookupIP (FlagResolveIPType w) (strip_brackets host) = inl addrs.
Hypothesis Hother : dnsHost (interleaved (cache w)) <> strip_brackets host.
Hypothesis Hlen : 2 <= Z.of_nat (List.length addrs) < 4294967296.

Local Abbreviation call := (ResolveByProto host port proto).

(** The installing call. *)
Lemma series_first :
  exists ip w',
    nth_error addrs 0 = Some ip /\
    call w = Ok (inl (mkHostPort ip p)) w' /\
    cache w' = mkCache (strip_brackets host) addrs 1 /\
    locked w' = false /\
    FlagResolveMethod w' = "cached-rr" /\
    FlagResolveIPType w' = FlagResolveIPType w.
Proof.
  assert (Hu : u32 (Z.of_nat (List.length addrs)) = Z.of_nat (List.length addrs))
    by (apply u32_small; lia).
  destruct (nth_error_0_of_u32 addrs ltac:(lia)) as [ip Hnth]. exists ip.
  rewrite ResolveByProto_stripped.
  erewrite resolve_host_install by (cbn; eauto; lia).
  eexists. split; [exact Hnth|]. split; [reflexivity|]. cbn. auto.
Qed.

(** The state after the installing call and [n] more calls. *)
Lemma series_state n :
  cache (after_calls call (N.succ n) w)
    = mkCache (strip_brackets host) addrs (u32 (Z.of_N n + 1)) /\
  locked (after_calls call (N.succ n) w) = false /\
  FlagResolveMethod (after_calls call (N.succ n) w) = "cached-rr".
Proof.
  induction n as [|n IH] using N.peano_ind.
  - rewrite after_calls_succ. cbn [after_calls N.iter].
    destruct series_first as (ip & w' & _ & -> & Hc & Hl' & Hm' & _).
    cbn. rewrite Hc. auto.
  - destruct IH as (Hc & Hl' & Hm').
    rewrite after_calls_succ.
    destruct (ResolveByProto_hit host port proto _ p addrs _ Hport Hip ltac:(lia) Hm' Hl' Hc)
      as (ip & w' & _ & -> & Hc' & Hl'' & Hm'' & _).
    cbn. rewrite Hc'. repeat split; auto. f_equal.
    rewrite N2Z.inj_succ. unfold u32. rewrite Zplus_mod_idemp_l. reflexivity.
Qed.

(** What each call of the series returns: the installing call the address
    at index 0, call [n + 1] the address at the wrapped counter mod length. *)
Lemma series_result n :
  exists ip,
    nth_error addrs (Z.to_nat (u32 (Z.of_N n + 1) mod Z.of_nat (List.length addrs))) = Some ip /\
    call_result call (N.succ n) w = Some (inl (mkHostPort ip p)).
Proof.
  destruct (series_state n) as (Hc & Hl' & Hm').
  destruct (ResolveByProto_hit host port proto _ p addrs _ Hport Hip ltac:(lia) Hm' Hl' Hc)
    as (ip & w' & Hnth & Hr & _).
  exists ip. split; [exact Hnth|]. unfold call_result. now rewrite Hr.
Qed.

(** C4, as the code has it. For a host with N >= 2 addresses (N below
    2^32) under cached-rr that the cache does not hold yet, in a series of
    successive calls the call number [k], counting the installing call as 0
    and as long as [k] is below 2^32, returns the address at index
    [k mod N]: the indices run 0, 1, ..., N-1 and round again. The
    installing call returns index 0 and sets the counter to 1, and each
    later call returns index counter mod N and increments the 32-bit
    counter, which is [k + 1] modulo 2^32 after call [k]. *)
Theorem C4_cached_rr_cycle (k : N) :
  (k < 4294967296)%N ->
  exists ip,
    nth_error addrs (Z.to_nat (Z.of_N k mod Z.of_nat (List.length addrs))) = Some ip /\
    call_result call k w = Some (inl (mkHostPort ip p)) /\
    cache (after_calls call (N.succ k) w)
      = mkCache (strip_brackets host) addrs (u32 (Z.of_N k + 1)).
Proof.
  intros Hk.
  destruct (N.eq_dec k 0) as [->|Hnz].
  - destruct series_first as (ip & w' & Hnth & Hr & _).
    exists ip. rewrite Z.mod_0_l by lia. split; [exact Hnth|].
    split; [|apply (series_state 0%N)].
    unfold call_result. cbn [after_calls N.iter]. now rewrite Hr.
  - destruct (series_result (N.pred k)) as (ip & Hnth & Hr).
    rewrite (N.succ_pred k Hnz) in Hr.
    replace (Z.of_N (N.pred k) + 1) with (Z.of_N k) in Hnth by lia.
    rewrite u32_small in Hnth by lia.
    exists ip. split; [exact Hnth|]. split; [exact Hr|]. apply series_state.
Qed.

End Series.

End WithSystem.

Import Fixtures.

(** A literal IPv6 host in brackets with a numeric port. *)
Lemma C2_literal_ip_witness :
  exists w',
    ResolveByProto0 "[::1]" "80" "tcp" initial_world
      = Ok (inl (mkHostPort (repeat Byte.x00 15 ++ [Byte.x01]) 80)) w' /\
    cache w' = cache initial_world /\ locked w' = locked initial_world /\
    exists added, trace w' = added ++ trace initial_world /\
                  filter is_lookup_ip added = [] /\ filter is_lock added = [].
Proof.
  exact (C2_literal_ip LookupPort0 ParseIP0 LookupIP0 rand0 alone
           "[::1]" "80" "tcp" initial_world _ eq_refl).
Defined.

(** A literal IP with a port name that does not resolve: the port error is
    returned, not the IP. *)
Lemma C2_port_lookup_comes_first :
  ParseIP0 (strip_brackets "127.0.0.1") = Some ip_localhost /\
  LookupPort0 "tcp" "no-such-service" = inr err_unknown_port /\
  result_of (ResolveByProto0 "127.0.0.1" "no-such-service" "tcp" initial_world)
    = Some (inr err_unknown_port).
Proof. repeat split. Qed.

(** A host with three addresses, resolved for the first time. *)
Lemma C1_cached_rr_install_witness :
  exists ip w',
    nth_error [ip_a; ip_b; ip_c] 0 = Some ip /\
    ResolveByProto0 "rr.example" "80" "tcp" initial_world = Ok (inl (mkHostPort ip 80)) w' /\
    cache w' = mkCache "rr.example" [ip_a; ip_b; ip_c] 1 /\
    locked w' = false /\
    exists added, trace w' = added ++ trace initial_world /\
                  List.length (filter is_lookup_ip added) = 1%nat.
Proof.
  apply (C1_cached_rr_install LookupPort0 ParseIP0 LookupIP0 rand0 alone
           "rr.example" "80" "tcp" initial_world 80 [ip_a; ip_b; ip_c]).
  - reflexivity.
  - reflexivity.
  - reflexivity.
  - reflexivity.
  - discriminate.
  - reflexivity.
  - reflexivity.
  - discriminate.
Defined.

(** A host whose lookup returns exactly one address: the address is
    returned, the cache stays as it was, and the next call looks the host
    up again. *)
Lemma C1_single_address_not_installed :
  LookupIP0 "ip4" "single.example" = inl [ip_a] /\
  result_of (ResolveByProto0 "single.example" "80" "tcp" initial_world)
    = Some (inl (mkHostPort ip_a 80)) /\
  cache (world_of (ResolveByProto0 "single.example" "80" "tcp" initial_world)) = initial_cache /\
  List.length (filter is_lookup_ip
                 (trace (after_calls (ResolveByProto0 "single.example" "80" "tcp") 2
                           initial_world))) = 2%nat.
Proof. repeat split. Qed.

(** Call number 4 of a series on three addresses: index 1. *)
Lemma C4_cached_rr_cycle_witness :
  call_result (ResolveByProto0 "rr.example" "80" "tcp") 4 initial_world
    = Some (inl (mkHostPort ip_b 80)).
Proof.
  destruct (C4_cached_rr_cycle LookupPort0 ParseIP0 LookupIP0 rand0 alone
              "rr.example" "80" "tcp" initial_world 80 [ip_a; ip_b; ip_c]
              eq_refl eq_refl eq_refl eq_refl
              ltac:(discriminate) eq_refl ltac:(discriminate) ltac:(cbn; lia)
              4%N eq_refl) as (ip & Hnth & Hr & _).
  cbv in Hnth. injection Hnth as <-. exact Hr.
Defined.

(** The 32-bit counter wraps: on three addresses the calls number 2^32 - 1
    and 2^32 of a series both return index 0, where the cycle asks for
    index 1 in the second. *)
Lemma C4_counter_wraps :
  call_result (ResolveByProto0 "rr.example" "80" "tcp") 4294967295 initial_world
    = Some (inl (mkHostPort ip_a 80)) /\
  call_result (ResolveByProto0 "rr.example" "80" "tcp") 4294967296 initial_world
    = Some (inl (mkHostPort ip_a 80)) /\
  nth_error [ip_a; ip_b; ip_c] (Z.to_nat (4294967296 mod 3)) = Some ip_b /\
  ip_a <> ip_b.
Proof.
  pose proof (series_result LookupPort0 ParseIP0 LookupIP0 rand0 alone
                "rr.example" "80" "tcp" initial_world 80 [ip_a; ip_b; ip_c]
                eq_refl eq_refl eq_refl eq_refl
                ltac:(discriminate) eq_refl ltac:(discriminate) ltac:(cbn; lia)) as H.
  split; [|split; [|split; [reflexivity|discriminate]]].
  - destruct (H 4294967294%N) as (ip & Hnth & Hr).
    cbv in Hnth. injection Hnth as <-. exact Hr.
  - destruct (H 4294967295%N) as (ip & Hnth & Hr).
    cbv in Hnth. injection Hnth as <-. exact Hr.
Qed.

(** C10, on the code. In the package's initial state, and again after
    [ClearResolveCache], the cached host is the empty string and the address
    list is empty; a cached-rr resolution of the empty host (as
    [TCPResolveDestination ":8080"] makes) finds host and cached host equal,
    so the cache check reports a hit on the empty list and the modulo by
    its length panics, with [dnsMutex] still locked. *)
Theorem C10_empty_host_hits_empty_cache :
  (exists w',
     checkCache "" initial_world = Crashed "runtime error: integer divide by zero" w' /\
     dnsAddrs (cache w') = [] /\ locked w' = true) /\
  (exists w',
     ResolveByProto0 "" "80" "tcp" initial_world
       = Crashed "runtime error: integer divide by zero" w' /\ locked w' = true) /\
  (exists w',
     TCPResolveDestination0 ":8080" initial_world
       = Crashed "runtime error: integer divide by zero" w' /\ locked w' = true) /\
  (exists w',
     ResolveByProto0 "" "80" "tcp"
       (world_of (ClearResolveCache
                    (world_of (ResolveByProto0 "rr.example" "80" "tcp" initial_world))))
       = Crashed "runtime error: integer divide by zero" w' /\ locked w' = true).
Proof.
  split; [|split; [|split]].
  - eexists. split; [reflexivity|]. split; reflexivity.
  - eexists. split; [lazy; reflexivity|reflexivity].
  - eexists. split; [lazy; reflexivity|reflexivity].
  - eexists. split; [lazy; reflexivity|reflexivity].
Qed.

End ResolverSpec.

(** * Further properties *)

(** ** The resolver: safety, the other methods, invalidation *)
Module ResolverSafetySpec.

Import Resolver ResolverSpec Invariants.
Local Open Scope go_scope.

Lemma u32_le z : 0 <= z -> u32 z <= z.
Proof. intros Hz. unfold u32. apply Z.mod_le; lia. Qed.

Lemma nth_error_mod_u32 (l : list net_IP) c :
  u32 (Z.of_nat (List.length l)) <> 0 ->
  exists ip, nth_error l (Z.to_nat (c mod u32 (Z.of_nat (List.length l)))) = Some ip.
Proof.
  intros Hn.
  pose proof (u32_range (Z.of_nat (List.length l))) as Hr.
  pose proof (u32_le (Z.of_nat (List.length l)) ltac:(lia)) as Hle.
  pose proof (Z.mod_pos_bound c (u32 (Z.of_nat (List.length l))) ltac:(lia)) as Hb.
  destruct (nth_error l (Z.to_nat (c mod u32 (Z.of_nat (List.length l))))) eqn:E; [eauto|].
  apply nth_error_None in E. lia.
Qed.

(** What the cache check does, from an unlocked state in which the host is
    not cached with an empty list. *)
Lemma checkCache_cases host w :
  locked w = false ->
  (dnsHost (cache w) = host -> u32 (Z.of_nat (List.length (dnsAddrs (cache w)))) <> 0) ->
  (dnsHost (cache w) <> host /\
   checkCache host w =
     Ok (false, 0, None)
        (mkWorld (cache w) true (FlagResolveIPType w) (FlagResolveMethod w) (EvLock :: trace w)))
  \/
  (dnsHost (cache w) = host /\
   exists ip,
     In ip (dnsAddrs (cache w)) /\
     checkCache host w =
       Ok (true, dnsRoundRobin (cache w) mod u32 (Z.of_nat (List.length (dnsAddrs (cache w)))),
           Some ip)
          (mkWorld (mkCache (dnsHost (cache w)) (dnsAddrs (cache w))
                            (u32 (dnsRoundRobin (cache w) + 1)))
                   false (FlagResolveIPType w) (FlagResolveMethod w)
                   (EvLog (mkLog Verbose "Resolved %s:%s to cached #%d addr %+v")
                      :: EvUnlock :: EvLock :: trace w))).
Proof.
  intros Hl Hne.
  destruct (String.eqb_spec (dnsHost (cache w)) host) as [He|Hd].
  - right. split; [exact He|].
    destruct (nth_error_mod_u32 (dnsAddrs (cache w)) (dnsRoundRobin (cache w)) (Hne He))
      as [ip Hip].
    exists ip. split; [eapply nth_error_In; eauto|].
    apply checkCache_hit; auto.
  - left. split; [exact Hd|]. now apply checkCache_miss.
Qed.

(** Comparisons of string literals, computed. *)
Ltac closed_strings :=
  repeat match goal with
         | |- context [String.eqb ?a ?b] =>
             let v := eval vm_compute in (String.eqb a b) in
             lazymatch v with
             | true => change (String.eqb a b) with true
             | false => change (String.eqb a b) with false
             end
         end; cbv iota.

Section WithSystem.

Variable LookupPort : string -> string -> Z + error.
Variable ParseIP : string -> option net_IP.
Variable LookupIP : string -> string -> list net_IP + error.
Variable rand_Intn : Z -> Z.
Variable interleaved : Cache -> Cache.

Local Abbreviation ResolveByProto :=
  (Resolver.ResolveByProto LookupPort ParseIP LookupIP rand_Intn interleaved).
Local Abbreviation resolve_host :=
  (Resolver.resolve_host LookupPort ParseIP LookupIP rand_Intn interleaved).
Local Abbreviation choose := (Resolver.choose rand_Intn).

Lemma pick_ok addrs idx port w ip :
  nth_error addrs (Z.to_nat idx) = Some ip ->
  pick addrs idx port w =
    Ok (inl (mkHostPort ip port))
       (with_trace w (EvLog (mkLog Verbose "Resolved %s:%s to %s %s %s #%d addr %+v") :: trace w)).
Proof. intros H. unfold pick. rewrite H. reflexivity. Qed.

Lemma nth_error_0_nonempty (addrs : list net_IP) :
  addrs <> [] -> exists ip, nth_error addrs (Z.to_nat 0) = Some ip /\ In ip addrs.
Proof. destruct addrs as [|ip ?]; [congruence|]. exists ip. split; [reflexivity|now left]. Qed.

(** The choice among the addresses of a lookup always returns one of them
    (or, under cached-rr, one of the cached list), with the lock released
    and the cache well formed. *)
Lemma choose_ok m h addrs p w :
  locked w = false ->
  cache_ok (cache w) ->
  h <> "" ->
  addrs <> [] ->
  (forall n, 0 < n -> 0 <= rand_Intn n < n) ->
  exists ip w',
    choose m h addrs 0 p w = Ok (inl (mkHostPort ip p)) w' /\
    (In ip addrs \/ In ip (dnsAddrs (cache w))) /\
    locked w' = false /\ cache_ok (cache w') /\
    FlagResolveMethod w' = FlagResolveMethod w.
Proof.
  intros Hl Hok Hh Hne Hrand.
  destruct (nth_error_0_nonempty addrs Hne) as [ip0 [Hip0 Hin0]].
  pose proof (u32_range (Z.of_nat (List.length addrs))) as Hr.
  pose proof (u32_le (Z.of_nat (List.length addrs)) ltac:(lia)) as Hle.
  unfold Resolver.choose.
  destruct (1 <? u32 (Z.of_nat (List.length addrs))) eqn:E1.
  2:{ rewrite (pick_ok _ _ _ _ ip0 Hip0). exists ip0. eexists. split; [reflexivity|].
      destruct w; cbn in *. auto. }
  apply Z.ltb_lt in E1.
  destruct (String.eqb m "cached-rr") eqn:Em.
  { unfold bind at 1.
    destruct (checkCache_cases h w Hl) as [[Hd Hc]|[He [ip [Hin Hc]]]].
    - intros He. destruct Hok as [[Hhost _]|Hbig]; [congruence|lia].
    - rewrite Hc. run. unfold pick. rewrite Hip0. exists ip0. eexists.
      split; [reflexivity|]. cbn. split; [auto|]. split; [auto|].
      split; [right; cbn; exact E1|reflexivity].
    - rewrite Hc. run. exists ip. eexists. split; [reflexivity|]. cbn.
      split; [auto|]. split; [auto|]. split; [|reflexivity].
      destruct Hok as [[Hhost _]|Hbig]; [congruence|]. right. exact Hbig. }
  destruct (String.eqb m "rr") eqn:Err.
  { run.
    replace (u32 (Z.of_nat (List.length addrs)) =? 0) with false
      by (symmetry; apply Z.eqb_neq; lia).
    run.
    destruct (nth_error_mod_u32 addrs (dnsRoundRobin (cache w)) ltac:(lia)) as [ip Hip].
    unfold pick. rewrite Hip. exists ip. eexists. split; [reflexivity|]. cbn.
    split; [left; eapply nth_error_In; eauto|]. split; [auto|]. split; [|reflexivity].
    destruct Hok as [[Hhost Hnil]|Hbig]; [left|right]; cbn; auto. }
  destruct (String.eqb m "first") eqn:Ef.
  { run. unfold pick. rewrite Hip0. exists ip0. eexists. split; [reflexivity|].
    destruct w; cbn in *. auto. }
  destruct (String.eqb m "rnd") eqn:Ernd.
  { run.
    pose proof (Hrand (u32 (Z.of_nat (List.length addrs))) ltac:(lia)) as Hb.
    assert (Hidx : exists ip, nth_error addrs
              (Z.to_nat (u32 (rand_Intn (u32 (Z.of_nat (List.length addrs)))))) = Some ip).
    { rewrite (u32_small (rand_Intn _)) by lia.
      destruct (nth_error addrs (Z.to_nat (rand_Intn (u32 (Z.of_nat (List.length addrs))))))
        eqn:E; [eauto|]. apply nth_error_None in E. lia. }
    destruct Hidx as [ip Hip]. unfold pick. rewrite Hip.
    exists ip. eexists. split; [reflexivity|].
    split; [left; eapply nth_error_In; eauto|].
    destruct w; cbn in *. auto. }
  rewrite (pick_ok _ _ _ _ ip0 Hip0). exists ip0. eexists. split; [reflexivity|].
  destruct w; cbn in *. auto.
Qed.

Lemma lookup_and_choose_ok filter m h p w :
  locked w = false ->
  cache_ok (cache w) ->
  (forall c, cache_ok c -> cache_ok (interleaved c)) ->
  h <> "" ->
  (forall f h', LookupIP f h' <> inl []) ->
  (forall n, 0 < n -> 0 <= rand_Intn n < n) ->
  exists r w',
    lookup_and_choose LookupIP rand_Intn interleaved filter m h 0 p w = Ok r w' /\
    locked w' = false /\ cache_ok (cache w') /\
    FlagResolveMethod w' = FlagResolveMethod w.
Proof.
  intros Hl Hok Hint Hh Hlk Hrand.
  unfold lookup_and_choose, system_lookup. run.
  destruct (LookupIP filter h) as [addrs|err] eqn:E.
  - assert (Hne : addrs <> []) by (intros ->; exact (Hlk _ _ E)).
    destruct (choose_ok m h addrs p
                (mkWorld (interleaved (cache w)) (locked w) (FlagResolveIPType w)
                         (FlagResolveMethod w) (EvLookupIP filter h :: trace w))
                Hl (Hint _ Hok) Hh Hne Hrand)
      as (ip & w' & Hc & _ & Hl' & Hok' & Hm').
    rewrite Hc. eauto 10.
  - run. eexists. eexists. split; [reflexivity|]. cbn. auto.
Qed.

(** From an unlocked state with a well-formed cache, and for a host that is
    not empty once its brackets are off, a resolution always returns: it
    never panics, it gives the lock back, and it leaves the cache well
    formed, whatever the configured method. *)
Theorem ResolveByProto_safe host port proto w :
  locked w = false ->
  cache_ok (cache w) ->
  (forall c, cache_ok c -> cache_ok (interleaved c)) ->
  strip_brackets host <> "" ->
  (forall f h, LookupIP f h <> inl []) ->
  (forall n, 0 < n -> 0 <= rand_Intn n < n) ->
  exists r w',
    ResolveByProto host port proto w = Ok r w' /\
    locked w' = false /\ cache_ok (cache w') /\
    FlagResolveMethod w' = FlagResolveMethod w.
Proof.
  intros Hl Hok Hint Hh Hlk Hrand. rewrite ResolveByProto_stripped.
  set (h := strip_brackets host) in *.
  destruct w as [c l ft m tr]. cbn in Hl, Hok. subst l. unfold with_trace. cbn.
  generalize (entry_log host ++ tr). intros tr0.
  unfold Resolver.resolve_host. run.
  destruct (LookupPort proto port) as [p|err].
  2:{ run. eexists. eexists. split; [reflexivity|]. cbn. auto. }
  destruct (ParseIP h) as [ip|].
  { run. eexists. eexists. split; [reflexivity|]. cbn. auto. }
  run. destruct (String.eqb m "cached-rr") eqn:Em.
  - unfold bind at 1.
    destruct (checkCache_cases h
                (mkWorld c false ft m (EvLookupPort proto port :: tr0)) eq_refl)
      as [[Hd Hc]|[He [ip [Hin Hc]]]].
    + cbn. intros He. destruct Hok as [[Hhost _]|Hbig]; [congruence|lia].
    + rewrite Hc. cbn -[lookup_and_choose].
      destruct (lookup_and_choose_ok ft m h p
                  (mkWorld c false ft m (EvUnlock :: EvLock :: EvLookupPort proto port :: tr0))
                  eq_refl Hok Hint Hh Hlk Hrand) as (r & w' & Hr & H').
      rewrite Hr. eauto.
    + rewrite Hc. run. eexists. eexists. split; [reflexivity|]. cbn.
      split; [auto|]. split; [|reflexivity]. cbn in He.
      destruct Hok as [[Hhost _]|Hbig]; [congruence|]. right. exact Hbig.
  - destruct (lookup_and_choose_ok ft m h p
                (mkWorld c false ft m (EvLookupPort proto port :: tr0))
                eq_refl Hok Hint Hh Hlk Hrand) as (r & w' & Hr & H').
    rewrite Hr. eauto.
Qed.

Lemma ClearResolveCache_world w :
  locked w = false ->
  ClearResolveCache w =
    Ok tt (mkWorld (mkCache "" [] (dnsRoundRobin (cache w))) false
             (FlagResolveIPType w) (FlagResolveMethod w) (EvUnlock :: EvLock :: trace w)).
Proof. intros Hl. unfold ClearResolveCache, bind, Lock. rewrite Hl. reflexivity. Qed.

(** After [ClearResolveCache] the next cached-rr resolution of a host, even
    of the host that was cached, makes the system lookup again; for a host
    name that is not empty and no IP literal, whose port resolves, whose
    lookup answers with more than one address, and which no other goroutine
    installs in the meantime, it returns the first address and installs
    the host with that answer and counter 1. *)
Theorem ClearResolveCache_forces_lookup host port proto w p addrs :
  LookupPort proto port = inl p ->
  ParseIP (strip_brackets host) = None ->
  FlagResolveMethod w = "cached-rr" ->
  locked w = false ->
  strip_brackets host <> "" ->
  LookupIP (FlagResolveIPType w) (strip_brackets host) = inl addrs ->
  1 < u32 (Z.of_nat (List.length addrs)) ->
  dnsHost (interleaved (mkCache "" [] (dnsRoundRobin (cache w)))) <> strip_brackets host ->
  exists ip w',
    nth_error addrs 0 = Some ip /\
    ResolveByProto host port proto (world_of (ClearResolveCache w))
      = Ok (inl (mkHostPort ip p)) w' /\
    cache w' = mkCache (strip_brackets host) addrs 1 /\
    locked w' = false /\
    exists added, trace w' = added ++ trace w /\
                  List.length (filter is_lookup_ip added) = 1%nat.
Proof.
  intros Hport Hip Hm Hl Hh Hlook Hlen Hother.
  destruct (nth_error_0_of_u32 addrs ltac:(lia)) as [ip Hnth]. exists ip.
  rewrite (ClearResolveCache_world w Hl). cbn [world_of].
  rewrite ResolveByProto_stripped.
  erewrite resolve_host_install; cbn; eauto.
  eexists. split; [exact Hnth|]. split; [reflexivity|]. cbn. repeat split.
  eexists (_ :: _ :: _ :: _ :: _ :: _ :: _ :: _ :: entry_log host ++ [_; _]).
  split.
  - cbn. rewrite <- app_assoc. reflexivity.
  - cbn. rewrite filter_app. destruct (entry_log_quiet host) as [-> _]. reflexivity.
Qed.

(** Under the [first] method every call makes the system lookup and returns
    the first address; the lock is not taken and the cache is left as the
    other goroutines have it. *)
Theorem ResolveByProto_first host port proto w p addrs ip :
  LookupPort proto port = inl p ->
  ParseIP (strip_brackets host) = None ->
  FlagResolveMethod w = "first" ->
  LookupIP (FlagResolveIPType w) (strip_brackets host) = inl addrs ->
  nth_error addrs 0 = Some ip ->
  exists w',
    ResolveByProto host port proto w = Ok (inl (mkHostPort ip p)) w' /\
    cache w' = interleaved (cache w) /\
    locked w' = locked w /\
    exists added, trace w' = added ++ trace w /\
                  List.length (filter is_lookup_ip added) = 1%nat /\
                  filter is_lock added = [].
Proof.
  intros Hport Hip Hm Hlook Hnth.
  destruct w as [c l ft m tr]. cbn in Hm, Hlook. subst m.
  rewrite ResolveByProto_stripped. unfold with_trace. cbn.
  unfold Resolver.resolve_host. run. rewrite Hport, Hip. run.
  closed_strings.
  unfold lookup_and_choose, system_lookup. run. rewrite Hlook. run.
  unfold Resolver.choose. closed_strings.
  assert (Hpick : forall w0, pick addrs 0 p w0 = _) by (intros w0; apply (pick_ok addrs 0 p w0 ip Hnth)).
  destruct (1 <? u32 (Z.of_nat (List.length addrs))); run; rewrite Hpick;
    (eexists; split; [reflexivity|]; cbn; repeat split;
     first [ eexists (_ :: _ :: _ :: _ :: entry_log host); split; [reflexivity|]
           | eexists (_ :: _ :: _ :: entry_log host); split; [reflexivity|] ];
     cbn; destruct (entry_log_quiet host) as [-> ->]; auto).
Qed.

(** Under the [rr] method every call makes the system lookup and returns
    the address at the shared counter mod the number of addresses; the
    counter of the cache is incremented, without the lock, and the cached
    host and list are left alone. *)
Theorem ResolveByProto_rr host port proto w p addrs ip :
  LookupPort proto port = inl p ->
  ParseIP (strip_brackets host) = None ->
  FlagResolveMethod w = "rr" ->
  LookupIP (FlagResolveIPType w) (strip_brackets host) = inl addrs ->
  1 < u32 (Z.of_nat (List.length addrs)) ->
  nth_error addrs
    (Z.to_nat (dnsRoundRobin (interleaved (cache w)) mod u32 (Z.of_nat (List.length addrs))))
    = Some ip ->
  exists w',
    ResolveByProto host port proto w = Ok (inl (mkHostPort ip p)) w' /\
    cache w' = mkCache (dnsHost (interleaved (cache w))) (dnsAddrs (interleaved (cache w)))
                       (u32 (dnsRoundRobin (interleaved (cache w)) + 1)) /\
    locked w' = locked w /\
    exists added, trace w' = added ++ trace w /\
                  List.length (filter is_lookup_ip added) = 1%nat /\
                  filter is_lock added = [].
Proof.
  intros Hport Hip Hm Hlook Hlen Hnth.
  destruct w as [c l ft m tr]. cbn in Hm, Hlook, Hnth. subst m.
  rewrite ResolveByProto_stripped. unfold with_trace. cbn.
  unfold Resolver.resolve_host. run. rewrite Hport, Hip. run.
  closed_strings.
  unfold lookup_and_choose, system_lookup. run. rewrite Hlook. run.
  unfold Resolver.choose. closed_strings.
  replace (1 <? u32 (Z.of_nat (List.length addrs))) with true by (symmetry; now apply Z.ltb_lt).
  run.
  replace (u32 (Z.of_nat (List.length addrs)) =? 0) with false
    by (symmetry; apply Z.eqb_neq; lia).
  run. unfold pick. rewrite Hnth.
  eexists; split; [reflexivity|]; cbn; repeat split.
  eexists (_ :: _ :: _ :: _ :: entry_log host); split; [reflexivity|].
  cbn. destruct (entry_log_quiet host) as [-> ->]. auto.
Qed.

(** What a call does up to its system lookup, by the method: from an
    unlocked state, and under cached-rr for a host the cache does not hold,
    the call goes on with [choose] or returns the lookup's error, in a state
    whose cache is as the other goroutines left it and whose lock is free. *)
Lemma resolve_host_to_lookup h port proto w p :
  LookupPort proto port = inl p ->
  ParseIP h = None ->
  locked w = false ->
  (FlagResolveMethod w = "cached-rr" -> dnsHost (cache w) <> h) ->
  exists tr,
    (exists added, tr = added ++ trace w /\ List.length (filter is_lookup_ip added) = 1%nat) /\
    resolve_host h port proto w =
      match LookupIP (FlagResolveIPType w) h with
      | inl addrs =>
          choose (FlagResolveMethod w) h addrs 0 p
            (mkWorld (interleaved (cache w)) false (FlagResolveIPType w) (FlagResolveMethod w) tr)
      | inr err =>
          Ok (inr err)
             (mkWorld (interleaved (cache w)) false (FlagResolveIPType w) (FlagResolveMethod w)
                (EvLog (mkLog Error "Unable to lookup '%s' : %v") :: tr))
      end.
Proof.
  intros Hport Hip Hl Hmiss.
  destruct w as [c l ft m tr]. cbn in Hl, Hmiss. subst l.
  unfold Resolver.resolve_host. run. rewrite Hport, Hip. run.
  destruct (String.eqb m "cached-rr") eqn:Em.
  - apply String.eqb_eq in Em. specialize (Hmiss Em).
    unfold bind at 1. rewrite checkCache_miss by (cbn; auto).
    cbn -[lookup_and_choose]. unfold lookup_and_choose, system_lookup. run.
    exists (EvLookupIP ft h :: EvUnlock :: EvLock :: EvLookupPort proto port :: tr).
    split; [eexists (_ :: _ :: _ :: _ :: nil); split; reflexivity|].
    destruct (LookupIP ft h); reflexivity.
  - unfold lookup_and_choose, system_lookup. run.
    exists (EvLookupIP ft h :: EvLookupPort proto port :: tr).
    split; [eexists (_ :: _ :: nil); split; reflexivity|].
    destruct (LookupIP ft h); reflexivity.
Qed.

(** A failing system lookup: the call returns the lookup's error, whatever
    the method; the lock is free and this call has put nothing in the
    cache. *)
Theorem ResolveByProto_lookup_error host port proto w p err :
  LookupPort proto port = inl p ->
  ParseIP (strip_brackets host) = None ->
  locked w = false ->
  (FlagResolveMethod w = "cached-rr" -> dnsHost (cache w) <> strip_brackets host) ->
  LookupIP (FlagResolveIPType w) (strip_brackets host) = inr err ->
  exists w',
    ResolveByProto host port proto w = Ok (inr err) w' /\
    cache w' = interleaved (cache w) /\
    locked w' = false.
Proof.
  intros Hport Hip Hl Hmiss Hlook.
  rewrite ResolveByProto_stripped.
  destruct (resolve_host_to_lookup (strip_brackets host) port proto
              (with_trace w (entry_log host ++ trace w)) p Hport Hip Hl Hmiss)
    as (tr & _ & ->).
  cbn. rewrite Hlook. eexists. split; [reflexivity|]. cbn. auto.
Qed.

End WithSystem.

Import Fixtures MoreFixtures.

(** The small name service never answers with an empty list. *)
Lemma LookupIP0_nonempty f h : LookupIP0 f h <> inl [].
Proof.
  unfold LookupIP0. destruct (String.eqb h "rr.example"); [discriminate|].
  destruct (String.eqb h "single.example"); discriminate.
Qed.

(** A first resolution of a host with three addresses, from the initial
    state. *)
Lemma ResolveByProto_safe_witness :
  exists r w',
    ResolveByProto0 "rr.example" "80" "tcp" initial_world = Ok r w' /\
    locked w' = false /\ cache_ok (cache w') /\
    FlagResolveMethod w' = FlagResolveMethod initial_world.
Proof.
  apply (ResolveByProto_safe LookupPort0 ParseIP0 LookupIP0 rand0 alone).
  - reflexivity.
  - left. split; reflexivity.
  - intros c H. exact H.
  - discriminate.
  - apply LookupIP0_nonempty.
  - intros n Hn. unfold rand0. lia.
Defined.

(** The host that is cached, resolved again after the cache is cleared. *)
Lemma ClearResolveCache_forces_lookup_witness :
  exists ip w',
    nth_error [ip_a; ip_b; ip_c] 0 = Some ip /\
    ResolveByProto0 "rr.example" "80" "tcp"
      (world_of (ClearResolveCache
                   (world_of (ResolveByProto0 "rr.example" "80" "tcp" initial_world))))
      = Ok (inl (mkHostPort ip 80)) w' /\
    cache w' = mkCache "rr.example" [ip_a; ip_b; ip_c] 1 /\
    locked w' = false /\
    exists added,
      trace w' = added ++ trace (world_of (ResolveByProto0 "rr.example" "80" "tcp" initial_world)) /\
      List.length (filter is_lookup_ip added) = 1%nat.
Proof.
  apply (ClearResolveCache_forces_lookup LookupPort0 ParseIP0 LookupIP0 rand0 alone
           "rr.example" "80" "tcp"
           (world_of (ResolveByProto0 "rr.example" "80" "tcp" initial_world))
           80 [ip_a; ip_b; ip_c]).
  - reflexivity.
  - reflexivity.
  - reflexivity.
  - reflexivity.
  - discriminate.
  - reflexivity.
  - reflexivity.
  - discriminate.
Defined.

(** Three addresses under [first]. *)
Lemma ResolveByProto_first_witness :
  exists w',
    ResolveByProto0 "rr.example" "80" "tcp" (world_with "first" 7)
      = Ok (inl (mkHostPort ip_a 80)) w' /\
    cache w' = mkCache "" [] 7 /\
    locked w' = false /\
    exists added, trace w' = added ++ [] /\
                  List.length (filter is_lookup_ip added) = 1%nat /\
                  filter is_lock added = [].
Proof.
  apply (ResolveByProto_first LookupPort0 ParseIP0 LookupIP0 rand0 alone
           "rr.example" "80" "tcp" (world_with "first" 7) 80 [ip_a; ip_b; ip_c] ip_a);
    reflexivity.
Defined.

(** Three addresses under [rr], the counter at 7: index 1. *)
Lemma ResolveByProto_rr_witness :
  exists w',
    ResolveByProto0 "rr.example" "80" "tcp" (world_with "rr" 7)
      = Ok (inl (mkHostPort ip_b 80)) w' /\
    cache w' = mkCache "" [] 8 /\
    locked w' = false /\
    exists added, trace w' = added ++ [] /\
                  List.length (filter is_lookup_ip added) = 1%nat /\
                  filter is_lock added = [].
Proof.
  apply (ResolveByProto_rr LookupPort0 ParseIP0 LookupIP0 rand0 alone
           "rr.example" "80" "tcp" (world_with "rr" 7) 80 [ip_a; ip_b; ip_c] ip_b);
    reflexivity.
Defined.

(** A host the name service does not know. *)
Lemma ResolveByProto_lookup_error_witness :
  exists w',
    ResolveByProto0 "nowhere.example" "80" "tcp" initial_world
      = Ok (inr err_no_such_host) w' /\
    cache w' = initial_cache /\
    locked w' = false.
Proof.
  apply (ResolveByProto_lookup_error LookupPort0 ParseIP0 LookupIP0 rand0 alone
           "nowhere.example" "80" "tcp" initial_world 80 err_no_such_host).
  - reflexivity.
  - reflexivity.
  - reflexivity.
  - intros _. discriminate.
  - reflexivity.
Defined.

End ResolverSafetySpec.

(** ** The resolver under a method the validator rejects *)
Module ValidatorSpec.

Import Resolver ResolverSpec Invariants ResolverSafetySpec Validator.
Local Open Scope go_scope.

Lemma dnsValidator_rejects m e :
  dnsValidator m = Some e ->
  String.eqb m "cached-rr" = false /\ String.eqb m "rr" = false /\
  String.eqb m "first" = false /\ String.eqb m "rnd" = false.
Proof.
  unfold dnsValidator, map_get, valid. cbn [find fst snd].
  rewrite (String.eqb_sym m "cached-rr"), (String.eqb_sym m "rr"),
    (String.eqb_sym m "first"), (String.eqb_sym m "rnd").
  destruct (String.eqb "cached-rr" m); [discriminate|].
  destruct (String.eqb "rnd" m); [discriminate|].
  destruct (String.eqb "rr" m); [discriminate|].
  destruct (String.eqb "first" m); [discriminate|].
  auto.
Qed.

Section WithSystem.

Variable LookupPort : string -> string -> Z + error.
Variable ParseIP : string -> option net_IP.
Variable LookupIP : string -> string -> list net_IP + error.
Variable rand_Intn : Z -> Z.
Variable interleaved : Cache -> Cache.

Local Abbreviation ResolveByProto :=
  (Resolver.ResolveByProto LookupPort ParseIP LookupIP rand_Intn interleaved).

(** [dnsValidator] accepts the four methods the resolver's switch knows,
    and those only. A method it rejects, were it configured all the same,
    makes the resolver behave as under [first]: one system lookup, the
    first address, no lock taken and no write to the cache. *)
Theorem ResolveByProto_unvalidated host port proto w p addrs ip e :
  dnsValidator (FlagResolveMethod w) = Some e ->
  LookupPort proto port = inl p ->
  ParseIP (strip_brackets host) = None ->
  LookupIP (FlagResolveIPType w) (strip_brackets host) = inl addrs ->
  nth_error addrs 0 = Some ip ->
  (forall m, dnsValidator m = None <->
             m = "cached-rr" \/ m = "rnd" \/ m = "rr" \/ m = "first") /\
  exists w',
    ResolveByProto host port proto w = Ok (inl (mkHostPort ip p)) w' /\
    cache w' = interleaved (cache w) /\
    locked w' = locked w /\
    exists added, trace w' = added ++ trace w /\
                  List.length (filter is_lookup_ip added) = 1%nat /\
                  filter is_lock added = [].
Proof.
  intros Hv Hport Hip Hlook Hnth.
  split.
  { intros m. unfold dnsValidator, map_get, valid. cbn [find fst snd].
    destruct (String.eqb_spec "cached-rr" m) as [<-|H1]; [tauto|].
    destruct (String.eqb_spec "rnd" m) as [<-|H2]; [tauto|].
    destruct (String.eqb_spec "rr" m) as [<-|H3]; [tauto|].
    destruct (String.eqb_spec "first" m) as [<-|H4]; [tauto|].
    split; [discriminate|]. intros [E|[E|[E|E]]]; congruence. }
  destruct (dnsValidator_rejects _ _ Hv) as (Hc & Hr & Hf & Hn).
  destruct w as [c l ft m tr]. cbn in Hc, Hr, Hf, Hn, Hlook.
  rewrite ResolveByProto_stripped. unfold with_trace. cbn.
  unfold Resolver.resolve_host. run. rewrite Hport, Hip. run.
  rewrite Hc.
  unfold lookup_and_choose, system_lookup. run. rewrite Hlook. run.
  unfold Resolver.choose. rewrite Hc, Hr, Hf, Hn.
  assert (Hpick : forall w0, pick addrs 0 p w0 = _)
    by (intros w0; apply (pick_ok addrs 0 p w0 ip Hnth)).
  destruct (1 <? u32 (Z.of_nat (List.length addrs))); run; rewrite Hpick;
    (eexists; split; [reflexivity|]; cbn; repeat split;
     eexists (_ :: _ :: _ :: entry_log host); split; [reflexivity|];
     cbn; destruct (entry_log_quiet host) as [-> ->]; auto).
Qed.

End WithSystem.

Import Fixtures MoreFixtures.

(** A method nobody validated. *)
Lemma ResolveByProto_unvalidated_witness :
  dnsValidator "random" <> None /\
  exists w',
    ResolveByProto0 "rr.example" "80" "tcp" (world_with "random" 7)
      = Ok (inl (mkHostPort ip_a 80)) w' /\
    cache w' = mkCache "" [] 7 /\
    locked w' = false.
Proof.
  split; [discriminate|].
  destruct (ResolveByProto_unvalidated LookupPort0 ParseIP0 LookupIP0 rand0 alone
              "rr.example" "80" "tcp" (world_with "random" 7) 80 [ip_a; ip_b; ip_c] ip_a
              _ eq_refl eq_refl eq_refl eq_refl eq_refl)
    as (_ & w' & Hr & Hc & Hl & _).
  exists w'. auto.
Defined.

End ValidatorSpec.

(** ** Ports and display strings *)
Module PortsSpec.

Import Resolver Ports.

Lemma digits_no_colon d : LastIndex_colon (NilEmpty.string_of_uint d) = None.
Proof. induction d; cbn; rewrite ?IHd; reflexivity. Qed.

(** A decimal rendering holds no colon. *)
Lemma Itoa_no_colon i : LastIndex_colon (Itoa i) = None.
Proof.
  unfold Itoa, NilZero.string_of_int, NilZero.string_of_uint.
  destruct (Z.to_int i) as [d|d]; destruct d; cbn; rewrite ?digits_no_colon; reflexivity.
Qed.

Lemma Contains_colon_cons s : Contains_colon (String ":" s) = true.
Proof. unfold Contains_colon. cbn. destruct (LastIndex_colon s); reflexivity. Qed.

Lemma NormalizePort_has_colon port : Contains_colon (NormalizePort port) = true.
Proof.
  unfold NormalizePort. destruct (Contains_colon port) eqn:E; [exact E|].
  apply Contains_colon_cons.
Qed.

(** [NormalizePort] always gives a string with a colon, changes nothing
    once a colon is there, and so is idempotent. *)
Theorem NormalizePort_idempotent port :
  Contains_colon (NormalizePort port) = true /\
  (Contains_colon port = true -> NormalizePort port = port) /\
  (Contains_colon port = false -> NormalizePort port = (":" ++ port)%string) /\
  NormalizePort (NormalizePort port) = NormalizePort port.
Proof.
  split; [apply NormalizePort_has_colon|].
  split; [unfold NormalizePort; now intros ->|].
  split; [unfold NormalizePort; now intros ->|].
  unfold NormalizePort at 1. now rewrite NormalizePort_has_colon.
Qed.

Lemma HasPrefix_colon_NormalizePort input :
  HasPrefix (NormalizePort input) ":" = HasPrefix input ":" || negb (Contains_colon input).
Proof.
  unfold NormalizePort. destruct (Contains_colon input) eqn:E; cbn [negb].
  - now rewrite orb_false_r.
  - rewrite orb_true_r. unfold HasPrefix. cbn. now destruct input.
Qed.

Section WithStrings.

Variable addr_String : net_Addr -> string.

Local Abbreviation NormalizeHostPort := (Ports.NormalizeHostPort addr_String).

(** The display string is the same for a port specification and for its
    normal form; for a TCP address it is [localhost:port] exactly when the
    normal form has no host before the colon, and the address's own string
    otherwise; a unix socket shows as a flag; any other address with a bare
    port panics on the type assertion. *)
Theorem NormalizeHostPort_normal input addr :
  NormalizeHostPort (NormalizePort input) addr = NormalizeHostPort input addr /\
  (forall ip port,
     addr = TCPAddr ip port ->
     NormalizeHostPort input addr =
       if HasPrefix (NormalizePort input) ":"
       then Ret ("localhost:" ++ Itoa port)%string
       else Ret (addr_String addr)) /\
  (Network addr = "unix" ->
     NormalizeHostPort input addr = Ret ("-unix-socket=" ++ addr_String addr)%string) /\
  (forall ip port,
     addr = UDPAddr ip port -> HasPrefix (NormalizePort input) ":" = true ->
     exists msg, NormalizeHostPort input addr = Panic msg).
Proof.
  assert (Hc : HasPrefix (NormalizePort input) ":"
               || negb (Contains_colon (NormalizePort input))
               = HasPrefix input ":" || negb (Contains_colon input)).
  { rewrite NormalizePort_has_colon.
    cbn [negb]. rewrite orb_false_r. apply HasPrefix_colon_NormalizePort. }
  split; [|split; [|split]].
  - unfold Ports.NormalizeHostPort. now rewrite Hc.
  - intros ip port ->. unfold Ports.NormalizeHostPort. cbn.
    now rewrite HasPrefix_colon_NormalizePort.
  - intros Hn. unfold Ports.NormalizeHostPort. now rewrite Hn.
  - intros ip port -> Hp. unfold Ports.NormalizeHostPort. cbn.
    rewrite <- HasPrefix_colon_NormalizePort, Hp. eauto.
Qed.

End WithStrings.

(** [GetPort] gives the name of a unix socket address and the decimal port
    of a UDP or TCP address, which holds no colon: its normal form as a
    port specification is the port after a colon. For an address of any
    other type it panics. *)
Theorem GetPort_cases lAddr :
  (forall name, lAddr = UnixAddr name "unix" -> GetPort lAddr = Ret name) /\
  (forall ip port,
     lAddr = TCPAddr ip port \/ lAddr = UDPAddr ip port ->
     GetPort lAddr = Ret (Itoa port) /\
     NormalizePort (Itoa port) = (":" ++ Itoa port)%string) /\
  (forall network, lAddr = OtherAddr network -> exists msg, GetPort lAddr = Panic msg) /\
  (forall name net,
     lAddr = UnixAddr name net -> net <> "unix" -> exists msg, GetPort lAddr = Panic msg).
Proof.
  split; [|split; [|split]].
  - intros name ->. reflexivity.
  - intros ip port H. split.
    + destruct H as [-> | ->]; reflexivity.
    + unfold NormalizePort, Contains_colon. now rewrite Itoa_no_colon.
  - intros network ->. unfold GetPort. cbn.
    destruct (String.eqb network UnixDomainSocket); [eauto|].
    destruct (String.eqb network "udp"); eauto.
  - intros name net -> Hn. unfold GetPort. cbn.
    apply String.eqb_neq in Hn. unfold UnixDomainSocket. rewrite Hn.
    destruct (String.eqb net "udp"); eauto.
Qed.

End PortsSpec.

(** ** Facts on strings *)
Module StringFacts.

Import Resolver.

Lemma length_app (s t : string) :
  String.length (s ++ t)%string = (String.length s + String.length t)%nat.
Proof. induction s as [|c s IH]; cbn; [reflexivity|now rewrite IH]. Qed.

Lemma substring_all (s : string) : substring 0 (String.length s) s = s.
Proof. induction s as [|c s IH]; cbn; [reflexivity|now rewrite IH]. Qed.

Lemma substring_app_l (s t : string) : substring 0 (String.length s) (s ++ t)%string = s.
Proof.
  induction s as [|c s IH]; cbn; [now destruct t|now rewrite IH].
Qed.

Lemma substring_skip (s t : string) n :
  substring (String.length s) n (s ++ t)%string = substring 0 n t.
Proof. induction s as [|c s IH]; cbn; [reflexivity|exact IH]. Qed.

(** The rest of a string after a prefix of it. *)
Lemma substring_rest (s t : string) :
  substring (String.length s) (String.length (s ++ t)%string - String.length s) (s ++ t)%string = t.
Proof.
  rewrite substring_skip, length_app.
  replace (String.length s + String.length t - String.length s)%nat with (String.length t) by lia.
  apply substring_all.
Qed.

(** The part of [s ++ ":" ++ t] after the separator. *)
Lemma substring_after_sep (s t : string) :
  substring (String.length s + 1)
            (String.length (s ++ String ":" t)%string - (String.length s + 1))
            (s ++ String ":" t)%string = t.
Proof.
  induction s as [|c s IH].
  - cbn. rewrite Nat.sub_0_r. apply substring_all.
  - cbn. exact IH.
Qed.

Lemma HasPrefix_app (pre r : string) : HasPrefix (pre ++ r)%string pre = true.
Proof.
  unfold HasPrefix. induction pre as [|c pre IH]; cbn; [now destruct r|].
  destruct (ascii_dec c c); [exact IH|congruence].
Qed.

Lemma HasPrefix_inv (s pre : string) :
  HasPrefix s pre = true -> exists r, s = (pre ++ r)%string.
Proof.
  unfold HasPrefix. revert s. induction pre as [|c pre IH]; intros s H.
  - exists s. reflexivity.
  - destruct s as [|b s]; cbn in H; [discriminate|].
    destruct (ascii_dec c b) as [->|]; [|discriminate].
    destruct (IH s H) as [r ->]. exists r. reflexivity.
Qed.

Lemma LastIndex_colon_app_some (s t : string) :
  LastIndex_colon s <> None -> LastIndex_colon (s ++ t)%string <> None.
Proof.
  induction s as [|c s IH]; cbn; [congruence|].
  destruct (LastIndex_colon s) eqn:E.
  - intros _. destruct (LastIndex_colon (s ++ t)%string); [discriminate|].
    exfalso. apply IH; congruence.
  - destruct (Ascii.eqb c ":"); [|congruence].
    intros _. destruct (LastIndex_colon (s ++ t)%string); discriminate.
Qed.

(** The last colon of [s ++ ":" ++ t], when [t] holds none. *)
Lemma LastIndex_colon_sep (s t : string) :
  LastIndex_colon t = None ->
  LastIndex_colon (s ++ String ":" t)%string = Some (String.length s).
Proof.
  intros Ht. induction s as [|c s IH]; cbn.
  - now rewrite Ht.
  - now rewrite IH.
Qed.

Lemma HasSuffix_app (s suf : string) : HasSuffix (s ++ suf)%string suf = true.
Proof.
  unfold HasSuffix. rewrite length_app.
  replace (String.length s + String.length suf - String.length suf)%nat
    with (String.length s) by lia.
  rewrite substring_skip, substring_all, String.eqb_refl.
  rewrite andb_true_r. apply Nat.leb_le. lia.
Qed.

Lemma TrimSuffix_slash_app (s : string) : TrimSuffix_slash (s ++ "/")%string = s.
Proof.
  unfold TrimSuffix_slash. rewrite HasSuffix_app, length_app. cbn [String.length].
  replace (String.length s + 1 - 1)%nat with (String.length s) by lia.
  apply substring_app_l.
Qed.

Lemma strip_brackets_bracketed (s : string) :
  strip_brackets ("[" ++ s ++ "]")%string = s.
Proof.
  unfold strip_brackets.
  rewrite (HasPrefix_app "[" (s ++ "]")).
  change ("[" ++ s ++ "]")%string with (("[" ++ s) ++ "]")%string at 1.
  rewrite HasSuffix_app. cbn [andb].
  cbn [append String.length]. rewrite length_app. cbn [String.length].
  replace (S (String.length s + 1) - 1 - 1)%nat with (String.length s) by lia.
  cbn [substring]. apply substring_app_l.
Qed.

End StringFacts.

(** ** Destinations *)
Module DestinationSpec.

Import Resolver ResolverSpec Ports PortsSpec StringFacts.
Local Open Scope go_scope.

Section WithSystem.

Variable LookupPort : string -> string -> Z + error.
Variable ParseIP : string -> option net_IP.
Variable LookupIP : string -> string -> list net_IP + error.
Variable rand_Intn : Z -> Z.
Variable interleaved : Cache -> Cache.

Local Abbreviation ResolveByProto :=
  (Resolver.ResolveByProto LookupPort ParseIP LookupIP rand_Intn interleaved).
Local Abbreviation ResolveDestinationInternal :=
  (Resolver.ResolveDestinationInternal LookupPort ParseIP LookupIP rand_Intn interleaved).
Local Abbreviation TCPResolveDestination :=
  (Resolver.TCPResolveDestination LookupPort ParseIP LookupIP rand_Intn interleaved).
Local Abbreviation UDPResolveDestination :=
  (Resolver.UDPResolveDestination LookupPort ParseIP LookupIP rand_Intn interleaved).

Lemma no_colon_no_prefix dest pre :
  LastIndex_colon dest = None -> LastIndex_colon pre <> None -> HasPrefix dest pre = false.
Proof.
  intros Hd Hp. destruct (HasPrefix dest pre) eqn:E; [|reflexivity].
  apply HasPrefix_inv in E. destruct E as [r ->].
  exfalso. now apply (LastIndex_colon_app_some pre r).
Qed.

(** A destination with the other protocol's prefix, and a destination
    without any colon, are refused with an error before anything is looked
    up: the state is left alone but for one error line in the log. *)
Theorem ResolveDestination_refused w :
  (forall rest,
     exists e,
       TCPResolveDestination ("udp://" ++ rest)%string w =
         Ok (inr e) (with_trace w (EvLog (mkLog Error "ResolveDestination %s") :: trace w))) /\
  (forall rest,
     exists e,
       UDPResolveDestination ("tcp://" ++ rest)%string w =
         Ok (inr e) (with_trace w (EvLog (mkLog Error "ResolveDestination %s") :: trace w))) /\
  (forall dest,
     LastIndex_colon dest = None ->
     exists e,
       TCPResolveDestination dest w =
         Ok (inr e)
            (with_trace w (EvLog (mkLog Error "Destination '%s' is not host:port format")
                             :: trace w)) /\
       UDPResolveDestination dest w =
         Ok (inr e)
            (with_trace w (EvLog (mkLog Error "Destination '%s' is not host:port format")
                             :: trace w))).
Proof.
  split; [|split].
  - intros rest. unfold Resolver.TCPResolveDestination, Resolver.ResolveDestinationInternal.
    rewrite (HasPrefix_app "udp://" rest). eexists. reflexivity.
  - intros rest. unfold Resolver.UDPResolveDestination, Resolver.ResolveDestinationInternal.
    rewrite (HasPrefix_app "tcp://" rest). eexists. reflexivity.
  - intros dest Hd.
    assert (Hu : HasPrefix dest "udp://" = false) by (apply no_colon_no_prefix; [auto|discriminate]).
    assert (Ht : HasPrefix dest "tcp://" = false) by (apply no_colon_no_prefix; [auto|discriminate]).
    eexists. unfold Resolver.TCPResolveDestination, Resolver.UDPResolveDestination,
      Resolver.ResolveDestinationInternal.
    rewrite Hu, Ht. unfold bind, ret. rewrite Hd. split; reflexivity.
Qed.

(** With the [tcp://] prefix, and with or without one slash at the end, a
    destination resolves as it does without them; the only trace of the
    prefix is a debug line. *)
Theorem TCPResolveDestination_prefix d w :
  HasPrefix d "tcp://" = false ->
  HasPrefix d "udp://" = false ->
  TCPResolveDestination ("tcp://" ++ d ++ "/")%string w =
    TCPResolveDestination d
      (with_trace w (EvLog (mkLog Debug "Removed %s prefix dest now %q") :: trace w)) /\
  (HasSuffix d "/" = false ->
   TCPResolveDestination ("tcp://" ++ d)%string w =
     TCPResolveDestination d
       (with_trace w (EvLog (mkLog Debug "Removed %s prefix dest now %q") :: trace w))).
Proof.
  intros Ht Hu.
  unfold Resolver.TCPResolveDestination, Resolver.ResolveDestinationInternal.
  rewrite Ht, Hu.
  split.
  - change (HasPrefix ("tcp://" ++ d ++ "/")%string "udp://") with false.
    rewrite (HasPrefix_app "tcp://" (d ++ "/")), (substring_rest "tcp://" (d ++ "/")).
    rewrite TrimSuffix_slash_app. reflexivity.
  - intros Hs.
    change (HasPrefix ("tcp://" ++ d)%string "udp://") with false.
    rewrite (HasPrefix_app "tcp://" d), (substring_rest "tcp://" d).
    unfold TrimSuffix_slash. rewrite Hs. reflexivity.
Qed.

Lemma Itoa_not_slashes i : HasPrefix (Itoa i) "//" = false.
Proof.
  unfold Itoa, NilZero.string_of_int, NilZero.string_of_uint.
  destruct (Z.to_int i) as [d|d]; destruct d; reflexivity.
Qed.

(** [s ++ ":" ++ t] does not start with a scheme of three letters when [s]
    holds no colon and [t] does not start with two slashes. *)
Lemma sep_not_scheme (s t : string) (a b c : ascii) :
  LastIndex_colon s = None ->
  HasPrefix t "//" = false ->
  a <> ":"%char -> b <> ":"%char -> c <> ":"%char ->
  HasPrefix (s ++ String ":" t)%string (String a (String b (String c "://"))) = false.
Proof.
  intros Hs Ht Ha Hb Hc.
  destruct (HasPrefix (s ++ String ":" t)%string (String a (String b (String c "://")))) eqn:E;
    [|reflexivity].
  exfalso. apply HasPrefix_inv in E. destruct E as [r E].
  destruct s as [|x1 [|x2 [|x3 [|x4 s']]]]; cbn in E; try congruence.
  - injection E as _ _ _ E. subst t.
    pose proof (HasPrefix_app "//" r) as H. cbn [append] in H. congruence.
  - injection E as _ _ _ E _. subst x4. cbn in Hs.
    destruct (LastIndex_colon s'); discriminate.
Qed.

Section RoundTrip.

Variable IP_String : net_IP -> string.

(** What [String] gives for an address is a destination that resolves back
    to the address, without any host lookup and without touching the
    cache, provided the standard library parses the IP back from its
    string, renders no IP with a leading bracket, and resolves the decimal
    port to itself. *)
Theorem HostPortAddr_String_roundtrip (hpa : HostPortAddr) (w : World) :
  ParseIP (IP_String (IP hpa)) = Some (IP hpa) ->
  HasPrefix (IP_String (IP hpa)) "[" = false ->
  LookupPort "tcp" (Itoa (Port hpa)) = inl (Port hpa) ->
  exists w',
    TCPResolveDestination (HostPortAddr_String IP_String hpa) w = Ok (inl hpa) w' /\
    cache w' = cache w /\ locked w' = locked w /\
    exists added, trace w' = added ++ trace w /\ filter is_lookup_ip added = [].
Proof.
  destruct hpa as [ip port]. cbn [IP Port]. intros Hparse Hbr Hport.
  unfold HostPortAddr_String. cbn [IP Port].
  set (ipstr := IP_String ip) in *.
  set (X := if Contains_colon ipstr then ("[" ++ ipstr ++ "]")%string else ipstr).
  assert (Hstrip : strip_brackets X = ipstr).
  { unfold X. destruct (Contains_colon ipstr).
    - apply strip_brackets_bracketed.
    - unfold strip_brackets. now rewrite Hbr. }
  assert (Hnc : Contains_colon ipstr = false -> LastIndex_colon ipstr = None).
  { unfold Contains_colon. now destruct (LastIndex_colon ipstr). }
  assert (Hu : HasPrefix (X ++ ":" ++ Itoa port)%string "udp://" = false).
  { unfold X. destruct (Contains_colon ipstr) eqn:E; [reflexivity|].
    apply (sep_not_scheme ipstr (Itoa port) "u" "d" "p");
      auto using Itoa_not_slashes; discriminate. }
  assert (Ht : HasPrefix (X ++ ":" ++ Itoa port)%string "tcp://" = false).
  { unfold X. destruct (Contains_colon ipstr) eqn:E; [reflexivity|].
    apply (sep_not_scheme ipstr (Itoa port) "t" "c" "p");
      auto using Itoa_not_slashes; discriminate. }
  clearbody X.
  unfold Resolver.TCPResolveDestination, Resolver.ResolveDestinationInternal.
  rewrite Hu, Ht. unfold bind at 1, ret at 1.
  change (X ++ ":" ++ Itoa port)%string with (X ++ String ":" (Itoa port))%string.
  rewrite (LastIndex_colon_sep X (Itoa port) (Itoa_no_colon port)).
  cbv zeta. rewrite substring_app_l.
  rewrite substring_after_sep.
  change (String.length "tcp://" <? 3)%nat with false. cbv iota.
  change (substring 0 3 "tcp://") with "tcp".
  rewrite ResolveByProto_stripped, Hstrip.
  rewrite (resolve_host_literal LookupPort ParseIP LookupIP rand_Intn interleaved
             _ _ _ _ port ip Hport Hparse).
  eexists. split; [reflexivity|]. cbn. repeat split.
  exists (EvLog (mkLog Verbose "Resolved %s:%s already an IP as addr %+v")
            :: EvLookupPort "tcp" (Itoa port) :: entry_log X).
  split; [reflexivity|]. cbn. apply entry_log_quiet.
Qed.

End RoundTrip.

End WithSystem.

Import Fixtures MoreFixtures.

(** A literal IP destination, with and without the prefix. *)
Lemma TCPResolveDestination_prefix_witness :
  TCPResolveDestination0 "tcp://127.0.0.1:80/" initial_world =
    TCPResolveDestination0 "127.0.0.1:80"
      (with_trace initial_world
         (EvLog (mkLog Debug "Removed %s prefix dest now %q") :: trace initial_world)) /\
  (HasSuffix "127.0.0.1:80" "/" = false ->
   TCPResolveDestination0 "tcp://127.0.0.1:80" initial_world =
     TCPResolveDestination0 "127.0.0.1:80"
       (with_trace initial_world
          (EvLog (mkLog Debug "Removed %s prefix dest now %q") :: trace initial_world))).
Proof.
  apply (TCPResolveDestination_prefix LookupPort0 ParseIP0 LookupIP0 rand0 alone
           "127.0.0.1:80" initial_world); reflexivity.
Defined.

(** The IPv6 loopback address on port 8080 shows as [[::1]:8080] and
    resolves back. *)
Lemma HostPortAddr_String_roundtrip_witness :
  HostPortAddr_String IP_String0 (mkHostPort ip6_loopback 8080) = "[::1]:8080" /\
  exists w',
    TCPResolveDestination0 "[::1]:8080" initial_world
      = Ok (inl (mkHostPort ip6_loopback 8080)) w' /\
    cache w' = cache initial_world /\ locked w' = locked initial_world /\
    exists added, trace w' = added ++ trace initial_world /\ filter is_lookup_ip added = [].
Proof.
  split; [reflexivity|].
  apply (HostPortAddr_String_roundtrip LookupPort0 ParseIP0 LookupIP0 rand0 alone
           IP_String0 (mkHostPort ip6_loopback 8080) initial_world); reflexivity.
Defined.

End DestinationSpec.

(** ** Streams: reading up to a stop byte, and Copy *)
Module StreamFacts.

Import CopyPrim Streams MoreFixtures.

Lemma i64_small z : -9223372036854775808 <= z < 9223372036854775808 -> i64 z = z.
Proof. intros H. unfold i64. rewrite Z.mod_small; lia. Qed.

(** [bytes_Read] reads a stream: what is left of the slice. *)
Lemma bytes_Read_stream : stream_reader bytes_Read whole.
Proof.
  intros r b Hb. unfold whole. destruct r as [|c rest].
  - exists io_EOF, []. repeat split.
  - exists (Nat.min (List.length b) (List.length (c :: rest))), (skipn (Nat.min (List.length b) (List.length (c :: rest))) (c :: rest)).
    destruct b as [|x b]; [congruence|]. cbn [List.length].
    repeat split; lia.
Qed.

Lemma buffer_Write_accepting : accepting_writer buffer_Write whole.
Proof. intros w chunk. eexists. split; reflexivity. Qed.

End StreamFacts.

Module SmallReadSpec.

Import CopyPrim Streams SmallRead StreamFacts.

Lemma set_at_length buf i b : (i < List.length buf)%nat -> List.length (set_at buf i b) = List.length buf.
Proof.
  intros H. unfold set_at. rewrite length_app, length_firstn. cbn [List.length].
  rewrite length_skipn. lia.
Qed.

Lemma set_at_firstn buf i b : (i < List.length buf)%nat -> firstn i (set_at buf i b) = firstn i buf.
Proof.
  intros H. unfold set_at.
  rewrite firstn_app, length_firstn, Nat.min_l, Nat.sub_diag by lia.
  cbn [firstn]. rewrite app_nil_r. apply firstn_all2. rewrite length_firstn. lia.
Qed.

Lemma set_at_nth buf i b d : (i < List.length buf)%nat -> nth i (set_at buf i b) d = b.
Proof.
  intros H. unfold set_at.
  rewrite app_nth2 by (rewrite length_firstn; lia).
  rewrite length_firstn, Nat.min_l, Nat.sub_diag by lia. reflexivity.
Qed.

Lemma set_at_firstn_S buf i b :
  (i < List.length buf)%nat -> firstn (S i) (set_at buf i b) = firstn i buf ++ [b].
Proof.
  intros H. unfold set_at.
  rewrite firstn_app, length_firstn, Nat.min_l by lia.
  replace (S i - i)%nat with 1%nat by lia.
  rewrite (firstn_all2 (n := S i) (firstn i buf)) by (rewrite length_firstn; lia).
  reflexivity.
Qed.

Section WithReader.

Variable R : Type.
Variable Read : R -> list Byte.byte -> ReadResult * R.
Variable content : R -> list Byte.byte.
Hypothesis Hreader : stream_reader Read content.

(** One read into a one-byte slice. *)
Lemma read_one r old :
  match content r with
  | [] => exists e r', Read r [old] = (mkRead 0 [old] (Some e), r') /\ errors_Is_EOF e = true
  | b :: rest => exists r', Read r [old] = (mkRead 1 [b] None, r') /\ content r' = rest
  end.
Proof.
  pose proof (Hreader r [old] ltac:(discriminate)) as H.
  destruct (content r) as [|b rest].
  - destruct H as (e & r' & H & He & _). eauto.
  - destruct H as (n & r' & Hn & _ & H & Hc). cbn [List.length] in Hn.
    assert (n = 1%nat) by lia. subst n. cbn in H, Hc. eauto.
Qed.

Lemma loop_spec stop max : forall k buf i r,
  0 <= max < 9223372036854775808 ->
  List.length buf = Z.to_nat max ->
  (i + k)%nat = Z.to_nat max ->
  exists res,
    SmallReadUntil_loop Read (S k) stop max buf (Z.of_nat i) r [] = Some (Ret res) /\
    u_log res = [] /\
    (forall pre post,
       firstn k (content r) = pre ++ stop :: post -> ~ In stop pre ->
       u_data res = firstn i buf ++ pre /\ u_found res = true /\ u_err res = None /\
       content (u_src res) = skipn (S (List.length pre)) (content r)) /\
    (~ In stop (firstn k (content r)) -> (k <= List.length (content r))%nat ->
       u_data res = firstn i buf ++ firstn k (content r) /\ u_found res = false /\
       u_err res = None /\ content (u_src res) = skipn k (content r)) /\
    (~ In stop (content r) -> (List.length (content r) < k)%nat ->
       u_data res = firstn i buf ++ content r /\ u_found res = false /\
       exists e, u_err res = Some e /\ errors_Is_EOF e = true).
Proof.
  induction k as [|k IH]; intros buf i r Hmax Hlen Hik.
  - cbn [SmallReadUntil_loop].
    replace (Z.of_nat i <? max) with false by (symmetry; apply Z.ltb_ge; lia).
    unfold give, slice_to.
    replace ((0 <=? Z.of_nat i) && (Z.of_nat i <=? Z.of_nat (List.length buf))) with true
      by (symmetry; apply andb_true_iff; split; apply Z.leb_le; lia).
    eexists. split; [reflexivity|]. cbn. rewrite Nat2Z.id.
    split; [reflexivity|]. split; [|split].
    + intros pre post H. destruct pre; discriminate.
    + intros _ _. rewrite app_nil_r. auto.
    + intros _ H. lia.
  - cbn [SmallReadUntil_loop].
    replace (Z.of_nat i <? max) with true by (symmetry; apply Z.ltb_lt; lia).
    replace ((Z.of_nat i <? 0) || (Z.of_nat (List.length buf) <? Z.of_nat i + 1)) with false
      by (symmetry; apply orb_false_iff; split; apply Z.ltb_ge; lia).
    rewrite Nat2Z.id.
    pose proof (read_one r (nth i buf Byte.x00)) as Hr.
    assert (Hi : (i < List.length buf)%nat) by lia.
    destruct (content r) as [|b rest] eqn:Ec.
    + destruct Hr as (e & r' & -> & He). cbn [er rbuf nth].
      unfold give, slice_to.
      rewrite set_at_length by exact Hi.
      replace ((0 <=? Z.of_nat i) && (Z.of_nat i <=? Z.of_nat (List.length buf))) with true
        by (symmetry; apply andb_true_iff; split; apply Z.leb_le; lia).
      eexists. split; [reflexivity|]. cbn. rewrite Nat2Z.id, set_at_firstn by exact Hi.
      split; [reflexivity|]. split; [|split].
      * intros pre post H. destruct pre; discriminate.
      * intros _ H. cbn in H. lia.
      * intros _ _. rewrite app_nil_r. eauto.
    + destruct Hr as (r' & -> & Hc'). cbn [er rbuf nr nth].
      change (negb (1 =? 1)) with false. cbv iota.
      rewrite set_at_nth by exact Hi.
      destruct (Byte.eqb b stop) eqn:Eb.
      * apply Byte.byte_dec_bl in Eb. subst b.
        unfold give, slice_to.
        rewrite set_at_length by exact Hi.
        replace ((0 <=? Z.of_nat i) && (Z.of_nat i <=? Z.of_nat (List.length buf))) with true
          by (symmetry; apply andb_true_iff; split; apply Z.leb_le; lia).
        eexists. split; [reflexivity|]. cbn [u_log u_data u_found u_err u_src].
        rewrite Nat2Z.id, set_at_firstn by exact Hi.
        split; [reflexivity|]. split; [|split].
        -- intros pre post H Hn. cbn [firstn] in H.
           destruct pre as [|x pre].
           ++ rewrite app_nil_r. cbn. auto.
           ++ cbn in H. injection H as -> _. exfalso. apply Hn. now left.
        -- intros Hn _. exfalso. apply Hn. now left.
        -- intros Hn _. exfalso. apply Hn. now left.
      * apply Byte.eqb_false in Eb.
        rewrite i64_small by lia.
        replace (Z.of_nat i + 1) with (Z.of_nat (S i)) by lia.
        destruct (IH (set_at buf i b) (S i) r' Hmax
                    ltac:(rewrite set_at_length by exact Hi; exact Hlen) ltac:(lia))
          as (res & Hrun & Hlog & H1 & H2 & H3).
        exists res. split; [exact Hrun|]. split; [exact Hlog|].
        rewrite set_at_firstn_S in H1, H2, H3 by exact Hi.
        rewrite Hc' in H1, H2, H3.
        split; [|split].
        -- intros pre post H Hn. cbn [firstn] in H.
           destruct pre as [|x pre]; cbn in H.
           ++ injection H as H _. congruence.
           ++ injection H as -> H.
              destruct (H1 pre post H ltac:(intros Hin; apply Hn; now right))
                as (Hd & Hf & He & Hs).
              rewrite <- app_assoc in Hd. cbn in Hd. cbn [List.length]. auto.
        -- intros Hn Hk. cbn [firstn] in Hn |- *. cbn [List.length] in Hk.
           destruct (H2 ltac:(intros Hin; apply Hn; now right) ltac:(lia))
             as (Hd & Hf & He & Hs).
           rewrite <- app_assoc in Hd. cbn in Hd. auto.
        -- intros Hn Hk. cbn [List.length] in Hk.
           destruct (H3 ltac:(intros Hin; apply Hn; now right) ltac:(lia))
             as (Hd & Hf & He).
           rewrite <- app_assoc in Hd. cbn in Hd. auto.
Qed.

(** On a stream of bytes [SmallReadUntil] returns: the bytes before the
    first stop byte when one is among the first [max] bytes, and the reader
    is left just after that stop byte; the first [max] bytes when they hold
    no stop byte; the whole stream and its end error when it ends before
    that. Nothing is logged. *)
Theorem SmallReadUntil_stream (r : R) (stop : Byte.byte) (max : Z) :
  0 <= max < 9223372036854775808 ->
  exists res,
    SmallReadUntil Read (S (Z.to_nat max)) r stop max = Some (Ret res) /\
    u_log res = [] /\
    (forall pre post,
       firstn (Z.to_nat max) (content r) = pre ++ stop :: post -> ~ In stop pre ->
       u_data res = pre /\ u_found res = true /\ u_err res = None /\
       content (u_src res) = skipn (S (List.length pre)) (content r)) /\
    (~ In stop (firstn (Z.to_nat max) (content r)) ->
     (Z.to_nat max <= List.length (content r))%nat ->
       u_data res = firstn (Z.to_nat max) (content r) /\ u_found res = false /\
       u_err res = None /\ content (u_src res) = skipn (Z.to_nat max) (content r)) /\
    (~ In stop (content r) -> (List.length (content r) < Z.to_nat max)%nat ->
       u_data res = content r /\ u_found res = false /\
       exists e, u_err res = Some e /\ errors_Is_EOF e = true).
Proof.
  intros Hmax. unfold SmallReadUntil.
  replace (max <? 0) with false by (symmetry; apply Z.ltb_ge; lia).
  exact (loop_spec stop max (Z.to_nat max) (repeat Byte.x00 (Z.to_nat max)) 0 r Hmax
           (repeat_length _ _) eq_refl).
Qed.

End WithReader.

Import Fixtures MoreFixtures.

(** Up to the first [l] of [hello], sixteen bytes at most. *)
Lemma SmallReadUntil_stream_witness :
  exists res,
    SmallReadUntil bytes_Read 17 hello Byte.x6c 16 = Some (Ret res) /\
    u_log res = [] /\
    u_data res = [Byte.x68; Byte.x65] /\ u_found res = true /\ u_err res = None /\
    u_src res = [Byte.x6c; Byte.x6f].
Proof.
  destruct (SmallReadUntil_stream (list Byte.byte) bytes_Read whole bytes_Read_stream
              hello Byte.x6c 16 ltac:(lia))
    as (res & Hrun & Hlog & H1 & _).
  exists res. split; [exact Hrun|]. split; [exact Hlog|].
  apply (H1 [Byte.x68; Byte.x65] [Byte.x6c; Byte.x6f] eq_refl).
  intros [H|[H|[]]]; discriminate.
Defined.


End SmallReadSpec.

Module SmallReadIdleSpec.

Import CopyPrim Streams SmallRead StreamFacts SmallReadSpec.

Lemma set_at_same buf : buf <> [] -> set_at buf 0 (nth 0 buf Byte.x00) = buf.
Proof. destruct buf; [congruence|reflexivity]. Qed.

Section WithReader.

Variable R : Type.
Variable Read : R -> list Byte.byte -> ReadResult * R.

Lemma idle_loop stop max : forall fuel buf r l,
  idle_reader Read -> 0 < max -> buf <> [] ->
  Byte.eqb (nth 0 buf Byte.x00) stop = false ->
  SmallReadUntil_loop Read fuel stop max buf 0 r l = None.
Proof.
  induction fuel as [|fuel IH]; intros buf r l Hidle Hmax Hb Hs; [reflexivity|].
  cbn [SmallReadUntil_loop].
  replace (0 <? max) with true by (symmetry; apply Z.ltb_lt; lia).
  assert (Hlen : (0 < List.length buf)%nat) by (destruct buf; [congruence|cbn; lia]).
  replace ((0 <? 0) || (Z.of_nat (List.length buf) <? 0 + 1)) with false
    by (symmetry; apply orb_false_iff; split; apply Z.ltb_ge; lia).
  change (Z.to_nat 0) with 0%nat.
  destruct (Hidle r [nth 0 buf Byte.x00]) as (r' & ->). cbn [er rbuf nr nth].
  rewrite (set_at_same buf Hb), Hs.
  change (i64 (0 + 0)) with 0. apply IH; assumption.
Qed.

(** A reader that returns no byte and no error: the test for the stop byte
    is made all the same, on the byte the fresh buffer holds. With the zero
    byte as stop byte the call reports it found, though nothing was read,
    after one critical line in the log; with any other stop byte the call
    does not return. *)
Theorem SmallReadUntil_idle_reader (r : R) (stop : Byte.byte) (max : Z) :
  idle_reader Read ->
  0 < max ->
  (stop = Byte.x00 ->
   exists res,
     SmallReadUntil Read 1 r stop max = Some (Ret res) /\
     u_data res = [] /\ u_found res = true /\ u_err res = None /\
     u_log res = [mkLog Critical "Bug/unexpected case, read %d instead of 1 byte yet no error"]) /\
  (stop <> Byte.x00 -> forall fuel, SmallReadUntil Read fuel r stop max = None).
Proof.
  intros Hidle Hmax.
  assert (Hbuf : exists rest, repeat Byte.x00 (Z.to_nat max) = Byte.x00 :: rest).
  { destruct (Z.to_nat max) eqn:E; [lia|]. cbn. eauto. }
  destruct Hbuf as (rest & Hbuf).
  unfold SmallReadUntil.
  replace (max <? 0) with false by (symmetry; apply Z.ltb_ge; lia).
  rewrite Hbuf. split.
  - intros ->. cbn [SmallReadUntil_loop].
    replace (0 <? max) with true by (symmetry; apply Z.ltb_lt; lia).
    replace ((0 <? 0) || (Z.of_nat (List.length (Byte.x00 :: rest)) <? 0 + 1)) with false
      by (symmetry; apply orb_false_iff; split; apply Z.ltb_ge; cbn [List.length]; lia).
    change (Z.to_nat 0) with 0%nat. cbn [nth].
    destruct (Hidle r [Byte.x00]) as (r' & ->). cbn [er rbuf nr nth].
    eexists. split; [reflexivity|]. cbn. auto.
  - intros Hs fuel. apply idle_loop; try assumption; [discriminate|].
    cbn [nth]. destruct (Byte.eqb Byte.x00 stop) eqn:E; [|reflexivity].
    apply Byte.byte_dec_bl in E. congruence.
Qed.

End WithReader.

Import Fixtures MoreFixtures.

(** On an idle reader, up to a NUL and up to a newline. *)
Lemma SmallReadUntil_idle_reader_witness :
  (exists res,
     SmallReadUntil idle_Read 1 tt Byte.x00 16 = Some (Ret res) /\
     u_data res = [] /\ u_found res = true) /\
  SmallReadUntil idle_Read 1000 tt Byte.x0a 16 = None.
Proof.
  destruct (SmallReadUntil_idle_reader unit idle_Read tt Byte.x00 16) as [H _].
  { intros r b. exists tt. reflexivity. }
  { lia. }
  destruct (SmallReadUntil_idle_reader unit idle_Read tt Byte.x0a 16) as [_ H'].
  { intros r b. exists tt. reflexivity. }
  { lia. }
  split.
  - destruct (H eq_refl) as (res & Hr & Hd & Hf & _). exists res. auto.
  - apply H'. discriminate.
Defined.

End SmallReadIdleSpec.

Module CopyStreamSpec.

Import CopyPrim Streams StreamFacts.

Lemma make_buf_nonempty : make_buf <> [].
Proof.
  intros E. apply (f_equal (@List.length _)) in E.
  unfold make_buf in E. rewrite repeat_length in E.
  unfold Payload.KILOBYTE in E. cbn [List.length] in E. lia.
Qed.

Section WithStreams.

Variables R W : Type.
Variable Read : R -> list Byte.byte -> ReadResult * R.
Variable Write : W -> list Byte.byte -> WriteResult * W.
Variable content : R -> list Byte.byte.
Variable sink : W -> list Byte.byte.

Section Transfer.

Hypothesis Hreader : stream_reader Read content.
Hypothesis Hwriter : accepting_writer Write sink.

(** The pass at the end of the stream. *)
Lemma Copy_iter_end (st : CopyState R W) :
  content (src st) = [] -> buf st <> [] ->
  exists r',
    content r' = [] /\
    Copy_iter Read Write st =
      Break (mkCopy (written st) (buf st) r' (dst st)
               (clog st ++ [mkLog Debug "read %d from %+v: %v"])) None.
Proof.
  intros Hc Hb. pose proof (Hreader (src st) (buf st) Hb) as H. rewrite Hc in H.
  destruct H as (e & r' & Hr & He & Ht & Hc').
  exists r'. split; [exact Hc'|].
  unfold Copy_iter. rewrite Hr. cbn [nr er rbuf].
  unfold write_phase. change (0 <? 0) with false. cbv iota.
  unfold read_phase. rewrite Ht. rewrite He. reflexivity.
Qed.

(** A pass in the stream: what was read is written, whole. *)
Lemma Copy_iter_chunk (st : CopyState R W) :
  content (src st) <> [] -> buf st <> [] ->
  0 <= written st ->
  written st + Z.of_nat (List.length (content (src st))) < 9223372036854775808 ->
  exists n st',
    (0 < n <= List.length (content (src st)))%nat /\
    Copy_iter Read Write st = Next st' /\
    written st' = written st + Z.of_nat n /\
    buf st' <> [] /\
    content (src st') = skipn n (content (src st)) /\
    sink (dst st') = sink (dst st) ++ firstn n (content (src st)) /\
    clog st' = clog st ++ [mkLog Debug "read %d from %+v: %v";
                           mkLog Debug "wrote %d (expected %d) to %+v: %v"].
Proof.
  intros Hc Hb Hw Hlt. pose proof (Hreader (src st) (buf st) Hb) as H.
  destruct (content (src st)) as [|c rest] eqn:Ec; [congruence|].
  destruct H as (n & r' & Hn & Hn' & Hr & Hc').
  set (s := c :: rest) in *.
  assert (Hchunk : slice_to (firstn n s ++ skipn n (buf st)) (Z.of_nat n) = Ret (firstn n s)).
  { unfold slice_to.
    replace ((0 <=? Z.of_nat n)
             && (Z.of_nat n <=? Z.of_nat (List.length (firstn n s ++ skipn n (buf st)))))
      with true.
    - rewrite Nat2Z.id, firstn_app, length_firstn, Nat.min_l by exact Hn'.
      rewrite Nat.sub_diag. cbn [firstn]. rewrite app_nil_r.
      f_equal. apply firstn_all2. rewrite length_firstn. lia.
    - symmetry. apply andb_true_iff. split; apply Z.leb_le; [lia|].
      rewrite length_app, length_firstn, length_skipn. lia. }
  destruct (Hwriter (dst st) (firstn n s)) as (w' & Hwr & Hs).
  assert (Hlen : List.length (firstn n s) = n) by (rewrite length_firstn; lia).
  rewrite Hlen in Hwr.
  exists n.
  eexists. split; [lia|]. split.
  - unfold Copy_iter. rewrite Hr. cbn [nr er rbuf].
    unfold write_phase, after_read. cbn [buf dst written src clog rbuf].
    replace (0 <? Z.of_nat n) with true by (symmetry; apply Z.ltb_lt; lia).
    rewrite Hchunk, Hwr. cbn [nw ew].
    replace (0 <? Z.of_nat n) with true by (symmetry; apply Z.ltb_lt; lia).
    rewrite Z.eqb_refl. cbn [negb]. unfold read_phase. reflexivity.
  - cbn [written buf src dst clog].
    split; [apply i64_small; lia|].
    split.
    { intros E. apply (f_equal (@List.length _)) in E.
      rewrite length_app, length_firstn in E. cbn [List.length] in E. lia. }
    split; [exact Hc'|]. split; [exact Hs|].
    rewrite <- app_assoc. reflexivity.
Qed.

Lemma Copy_loop_stream : forall n (st : CopyState R W),
  List.length (content (src st)) = n ->
  buf st <> [] ->
  0 <= written st ->
  written st + Z.of_nat n < 9223372036854775808 ->
  no_error_log (clog st) = true ->
  exists fuel res,
    Copy_loop Read Write fuel st = Some (Ret res) /\
    c_written res = written st + Z.of_nat n /\ c_err res = None /\
    sink (c_dst res) = sink (dst st) ++ content (src st) /\
    content (c_src res) = [] /\ no_error_log (c_log res) = true.
Proof.
  induction n as [n IH] using lt_wf_ind. intros st Hn Hb Hw Hlt Hlog.
  destruct (content (src st)) as [|c rest] eqn:Ec.
  - destruct (Copy_iter_end st Ec Hb) as (r' & Hc' & Hit).
    exists 1%nat. eexists. cbn [Copy_loop]. rewrite Hit. split; [reflexivity|].
    cbn. cbn in Hn. subst n. rewrite app_nil_r, Z.add_0_r.
    repeat split; auto. rewrite CopySpec.no_error_log_app, Hlog. reflexivity.
  - assert (Hne : content (src st) <> []) by (rewrite Ec; discriminate).
    destruct (Copy_iter_chunk st Hne Hb Hw ltac:(rewrite Ec, Hn; exact Hlt))
      as (k & st' & Hk & Hit & Hw' & Hb' & Hc' & Hs' & Hl').
    rewrite Ec in Hk, Hc', Hs'. rewrite Hn in Hk.
    destruct (IH (n - k)%nat ltac:(lia) st') as (fuel & res & Hrun & Hrw & Hre & Hrs & Hrc & Hrl).
    + rewrite Hc', length_skipn. lia.
    + exact Hb'.
    + lia.
    + lia.
    + rewrite Hl', CopySpec.no_error_log_app, Hlog. reflexivity.
    + exists (S fuel), res. cbn [Copy_loop]. rewrite Hit.
      split; [exact Hrun|]. split; [lia|]. split; [exact Hre|].
      split; [|auto].
      rewrite Hrs, Hs', Hc', <- app_assoc, firstn_skipn. reflexivity.
Qed.

(** From a stream of bytes to a writer that takes all it is given, [Copy]
    returns: the count is the length of the stream, the error is nil, the
    writer has taken the stream, in order and whole, after what it held,
    the reader is at its end, and nothing is logged at error level. *)
Theorem Copy_stream (d : W) (s : R) :
  Z.of_nat (List.length (content s)) < 9223372036854775808 ->
  exists fuel res,
    Copy Read Write fuel d s = Some (Ret res) /\
    c_written res = Z.of_nat (List.length (content s)) /\
    c_err res = None /\
    sink (c_dst res) = sink d ++ content s /\
    content (c_src res) = [] /\
    no_error_log (c_log res) = true.
Proof.
  intros Hlt. unfold Copy.
  exact (Copy_loop_stream (List.length (content s)) (init_state d s) eq_refl
           make_buf_nonempty (Z.le_refl 0) Hlt eq_refl).
Qed.

End Transfer.

(** A reader that keeps returning no byte and no error keeps [Copy] in its
    loop: it does not return, whatever the number of passes. *)
Theorem Copy_idle_reader (d : W) (s : R) :
  idle_reader Read ->
  forall fuel, Copy Read Write fuel d s = None.
Proof.
  intros Hidle fuel. unfold Copy. generalize (init_state d s).
  induction fuel as [|fuel IH]; intros st; [reflexivity|].
  cbn [Copy_loop]. unfold Copy_iter.
  destruct (Hidle (src st) (buf st)) as (r' & ->). cbn [nr er].
  unfold write_phase. change (0 <? 0) with false. cbv iota.
  unfold read_phase. apply IH.
Qed.

End WithStreams.

Import Fixtures MoreFixtures.

(** The five bytes of [hello] into an empty buffer. *)
Lemma Copy_stream_witness :
  exists fuel res,
    Copy bytes_Read buffer_Write fuel [] hello = Some (Ret res) /\
    c_written res = 5 /\ c_err res = None /\ c_dst res = hello /\ c_src res = [] /\
    no_error_log (c_log res) = true.
Proof.
  apply (Copy_stream (list Byte.byte) (list Byte.byte) bytes_Read buffer_Write whole whole
           bytes_Read_stream buffer_Write_accepting [] hello).
  cbn. lia.
Defined.

(** A thousand passes on an idle reader. *)
Lemma Copy_idle_reader_witness :
  Copy idle_Read buffer_Write 1000 ([] : list Byte.byte) tt = None.
Proof.
  apply (Copy_idle_reader unit (list Byte.byte) idle_Read buffer_Write [] tt).
  intros r b. exists tt. reflexivity.
Defined.

End CopyStreamSpec.

(** ** The shared payload, and what the proxy handler closes *)
Module PayloadSharedSpec.

Import Payload.

Section WithEnvironment.

Variable rnd : nat -> Byte.byte.

Local Abbreviation ChangeMaxPayloadSize := (Payload.ChangeMaxPayloadSize rnd).

Lemma firstn_fill k m :
  (k <= m)%nat -> firstn k (map rnd (seq 0 m)) = map rnd (seq 0 k).
Proof.
  intros H. rewrite firstn_map. f_equal.
  replace m with (k + (m - k))%nat by lia.
  rewrite seq_app, firstn_app, length_seq, Nat.sub_diag, app_nil_r.
  apply firstn_all2. rewrite length_seq. lia.
Qed.

(** The payload of a size is the front of the one shared buffer, as long as
    the size once it is clamped: it never panics, byte [i] of it is byte
    [i] of the fill whatever the size asked for, and so the payload of a
    size is the front of the payload of any larger size. *)
Theorem GenerateRandomPayload_shared n size :
  exists p,
    fst (GenerateRandomPayload (ChangeMaxPayloadSize n) size) = Ret p /\
    p = map rnd (seq 0 (Z.to_nat (Z.min size (Z.max 0 n)))) /\
    Z.of_nat (List.length p) = Z.max 0 (Z.min size (Z.max 0 n)) /\
    (forall size' p',
       size <= size' ->
       fst (GenerateRandomPayload (ChangeMaxPayloadSize n) size') = Ret p' ->
       p = firstn (List.length p) p').
Proof.
  assert (Hgen : forall sz,
    fst (GenerateRandomPayload (ChangeMaxPayloadSize n) sz)
    = Ret (map rnd (seq 0 (Z.to_nat (Z.min sz (Z.max 0 n)))))).
  { intros sz. unfold GenerateRandomPayload, ValidatePayloadSize, Payload.ChangeMaxPayloadSize.
    cbn [MaxPayloadSize Payload].
    set (m := if 0 <=? n then n else 0).
    assert (Hm : m = Z.max 0 n) by (unfold m; destruct (0 <=? n) eqn:E; lia).
    assert (Hs : forall k, 0 <= k <= m ->
              slice_to (map rnd (seq 0 (Z.to_nat m))) k = Ret (map rnd (seq 0 (Z.to_nat k)))).
    { intros k Hk. unfold slice_to. rewrite length_map, length_seq.
      replace ((0 <=? k) && (k <=? Z.of_nat (Z.to_nat m))) with true
        by (symmetry; apply andb_true_iff; split; apply Z.leb_le; lia).
      rewrite firstn_fill by lia. reflexivity. }
    destruct (m <? sz) eqn:E1; destruct (0 <? sz) eqn:E2; cbn [andb fst];
      [|destruct (sz <? 0) eqn:E3; cbn [fst]..];
      rewrite Hs by lia; do 3 f_equal; lia. }
  eexists. split; [apply Hgen|]. split; [reflexivity|].
  split; [rewrite length_map, length_seq; lia|].
  intros size' p' Hle Hp'. rewrite Hgen in Hp'. injection Hp' as <-.
  rewrite length_map, length_seq, firstn_fill by lia. reflexivity.
Qed.

End WithEnvironment.

End PayloadSharedSpec.

Module ProxyCloseSpec.

Import Proxy Invariants.

Section WithNetwork.

Variable Dial : string -> string -> Conn + error.
Variable io_Copy : Conn -> Conn -> Z * option error.
Variable CloseRead : Conn -> option error.
Variable CloseWrite : Conn -> option error.

Local Abbreviation transfer := (Proxy.transfer io_Copy CloseRead CloseWrite).
Local Abbreviation handleProxyRequest :=
  (Proxy.handleProxyRequest Dial io_Copy CloseRead CloseWrite).

(** A transfer closes halves of connections only. *)
Lemma transfer_closes_nothing dst src : filter is_close (transfer dst src) = [].
Proof.
  unfold Proxy.transfer. destruct (io_Copy dst src) as [n oErr].
  destruct (conn_tcp src), (conn_tcp dst), (CloseRead src), (CloseWrite dst); reflexivity.
Qed.

(** The handler closes each connection it holds exactly once, on every
    path, and the accepted one last: when the dial fails, the accepted
    connection alone; otherwise the dialled connection and then the
    accepted one, both after the wait for the two transfers. The goroutine
    it starts closes nothing. *)
Theorem handleProxyRequest_closes (conn : Conn) (dest : option Addr) :
  List.concat (map (filter is_close) (spawned (handleProxyRequest conn dest))) = [] /\
  match snd (dial_dest Dial dest) with
  | inr _ => filter is_close (main (handleProxyRequest conn dest)) = [EvClose conn]
  | inl d =>
      exists before,
        main (handleProxyRequest conn dest) =
          before ++ [EvWgWait;
                     EvLog (mkLog Verbose "Proxy: both sides of transfer to %v for %v done");
                     EvClose d; EvClose conn] /\
        filter is_close before = []
  end.
Proof.
  unfold Proxy.handleProxyRequest.
  destruct (dial_dest Dial dest) as [dialled [d|err]] eqn:E; cbn [snd spawned main map List.concat].
  - assert (Hd : filter is_close dialled = []).
    { unfold dial_dest in E. destruct dest; injection E as <- _; reflexivity. }
    split; [rewrite app_nil_r; apply transfer_closes_nothing|].
    exists (dialled ++ [EvWgAdd 2; EvGo] ++ transfer conn d). split.
    + rewrite <- !app_assoc. reflexivity.
    + rewrite !filter_app, Hd, transfer_closes_nothing. reflexivity.
  - assert (Hd : filter is_close dialled = []).
    { unfold dial_dest in E. destruct dest; injection E as <- _; reflexivity. }
    split; [reflexivity|]. rewrite filter_app, Hd. reflexivity.
Qed.

End WithNetwork.

End ProxyCloseSpec.

(** ** Summaries of buffers *)
Module SummarySpec.

Import Ports Summary.

Section WithFmt.

Variable Sprintf_q : list Byte.byte -> string.

Local Abbreviation EscapeBytes := (Summary.EscapeBytes Sprintf_q).
Local Abbreviation DebugSummary := (Summary.DebugSummary Sprintf_q).

(** With its two quotes, a quoted string has something to strip. *)
Lemma EscapeBytes_returns buf :
  (2 <= String.length (Sprintf_q buf))%nat -> exists s, EscapeBytes buf = Ret s.
Proof.
  intros H. unfold Summary.EscapeBytes, slice_str.
  replace ((0 <=? 1) && (1 <=? Z.of_nat (String.length (Sprintf_q buf)) - 1)
           && (Z.of_nat (String.length (Sprintf_q buf)) - 1
               <=? Z.of_nat (String.length (Sprintf_q buf)))) with true; [eauto|].
  symmetry. rewrite !andb_true_iff. repeat split; apply Z.leb_le; lia.
Qed.

(** A buffer of more than [max + 3] bytes is summed up by its length, its
    first [max/2] bytes and its last [max/2] bytes, which leave at least
    four bytes of the buffer out between them (three when [max] is -1),
    whenever [max] is -1 or more; with [max] at -2 or less the call panics on the slice. A buffer
    of at most [max + 3] bytes is escaped whole. *)
Theorem DebugSummary_cases (buf : list Byte.byte) (max : Z) :
  (forall b, (2 <= String.length (Sprintf_q b))%nat) ->
  -9223372036854775808 <= max < 9223372036854775805 ->
  (Z.of_nat (List.length buf) <= max + 3 -> DebugSummary buf max = EscapeBytes buf) /\
  (max + 3 < Z.of_nat (List.length buf) -> -1 <= max ->
   exists head mid tail a b,
     buf = head ++ mid ++ tail /\
     Z.of_nat (List.length head) = Z.quot max 2 /\
     Z.of_nat (List.length tail) = Z.quot max 2 /\
     ((3 <= List.length mid)%nat /\ (0 <= max -> (4 <= List.length mid)%nat)) /\
     EscapeBytes head = Ret a /\ EscapeBytes tail = Ret b /\
     DebugSummary buf max =
       Ret (Itoa (Z.of_nat (List.length buf)) ++ ": " ++ a ++ "..." ++ b)%string) /\
  (max + 3 < Z.of_nat (List.length buf) -> max <= -2 ->
   DebugSummary buf max = Panic "slice bounds out of range").
Proof.
  intros Hq Hmax.
  assert (Hw : i64 (max + 3) = max + 3) by (apply StreamFacts.i64_small; lia).
  unfold Summary.DebugSummary. rewrite Hw.
  split; [|split].
  - intros H. apply Z.leb_le in H. now rewrite H.
  - intros H Hm. apply Z.leb_gt in H as H'. rewrite H'.
    set (l := List.length buf) in *.
    set (h := Z.quot max 2).
    assert (Hh : 0 <= h /\ 2 * h <= max + 1).
    { unfold h. destruct (Z.eq_dec max (-1)) as [->|Hn]; [cbn; lia|].
      pose proof (Z.quot_pos max 2 ltac:(lia) ltac:(lia)).
      pose proof (Z.mul_quot_le max 2 ltac:(lia) ltac:(lia)). lia. }
    destruct Hh as [Hh0 Hh2].
    exists (firstn (Z.to_nat h) buf),
           (firstn (l - 2 * Z.to_nat h) (skipn (Z.to_nat h) buf)),
           (skipn (l - Z.to_nat h) buf).
    destruct (EscapeBytes_returns (firstn (Z.to_nat h) buf) (Hq _)) as [a Ha].
    destruct (EscapeBytes_returns (skipn (l - Z.to_nat h) buf) (Hq _)) as [b Hb].
    exists a, b.
    split.
    { rewrite <- (firstn_skipn (Z.to_nat h) buf) at 1. f_equal.
      rewrite <- (firstn_skipn (l - 2 * Z.to_nat h) (skipn (Z.to_nat h) buf)) at 1.
      f_equal. rewrite skipn_skipn. f_equal. lia. }
    split; [rewrite length_firstn; fold l; lia|].
    split; [rewrite length_skipn; fold l; lia|].
    split.
    { rewrite length_firstn, length_skipn. fold l. split; [lia|].
      intros Hpos. pose proof (Z.mul_quot_le max 2 ltac:(lia) ltac:(lia)). fold h in H0. lia. }
    split; [exact Ha|]. split; [exact Hb|].
    unfold slice_to, slice_from. fold l.
    replace ((0 <=? h) && (h <=? Z.of_nat l)) with true
      by (symmetry; apply andb_true_iff; split; apply Z.leb_le; lia).
    rewrite Ha.
    replace ((0 <=? Z.of_nat l - h) && (Z.of_nat l - h <=? Z.of_nat l)) with true
      by (symmetry; apply andb_true_iff; split; apply Z.leb_le; lia).
    replace (Z.to_nat (Z.of_nat l - h)) with (l - Z.to_nat h)%nat by lia.
    rewrite Hb. reflexivity.
  - intros H Hm. apply Z.leb_gt in H as H'. rewrite H'.
    assert (Hh : Z.quot max 2 < 0).
    { pose proof (Z.quot_opp_l max 2 ltac:(lia)) as Ho.
      pose proof (Z.quot_str_pos (- max) 2 ltac:(lia)). lia. }
    unfold slice_to.
    replace (0 <=? Z.quot max 2) with false by (symmetry; apply Z.leb_gt; exact Hh).
    reflexivity.
Qed.

End WithFmt.

Import MoreFixtures.

(** Ten bytes at [max] 4, and at [max] -2. *)
Lemma DebugSummary_cases_witness :
  (exists head mid tail a b,
     Fixtures.hello ++ Fixtures.hello = head ++ mid ++ tail /\
     List.length head = 2%nat /\ List.length tail = 2%nat /\
     Summary.DebugSummary Sprintf_q0 (Fixtures.hello ++ Fixtures.hello) 4
       = Ret ("10: " ++ a ++ "..." ++ b)%string) /\
  Summary.DebugSummary Sprintf_q0 (Fixtures.hello ++ Fixtures.hello) (-2)
    = Panic "slice bounds out of range".
Proof.
  assert (Hq : forall b, (2 <= String.length (Sprintf_q0 b))%nat).
  { intros b. unfold Sprintf_q0. cbn [String.length].
    generalize (string_of_list_byte b). intros s.
    induction s as [|c s IH]; cbn [append String.length]; lia. }
  split.
  - destruct (DebugSummary_cases Sprintf_q0 (Fixtures.hello ++ Fixtures.hello) 4 Hq ltac:(lia))
      as (_ & H & _).
    destruct (H ltac:(cbn; lia) ltac:(lia))
      as (hd & mid & tl & a & b & Hb & Hh & Ht & _ & _ & _ & Hr).
    exists hd, mid, tl, a, b. change (Z.quot 4 2) with 2 in Hh, Ht.
    split; [exact Hb|]. split; [lia|]. split; [lia|]. exact Hr.
  - destruct (DebugSummary_cases Sprintf_q0 (Fixtures.hello ++ Fixtures.hello) (-2) Hq ltac:(lia))
      as (_ & _ & H).
    apply H; cbn; lia.
Defined.

End SummarySpec.
